(** * QBench core: key/value pre-parser, provenance reconciliation and the
    finite-key secure-key-rate calculator

    A shallow embedding of [services/geminiService.ts] (with the interfaces of
    [types.ts]) and the properties proved about it.

    Conventions.
    - A JavaScript number is an IEEE-754 binary64 value: Rocq's primitive
      [float], whose operations are the ones JavaScript performs.
    - A JavaScript string is a Stdlib [string], one character per UTF-16 code
      unit; the text functions below are exact for code units below 256.
      The Greek letters of the trace labels are written as in the source file.
    - [null] and [undefined] (which the code never tells apart: it only tests
      [== null] and truthiness) are [None].
    - What the JavaScript runtime provides and the repository does not define
      ([Math.log2], number-to-string and string-to-number conversion) is a
      [Variable] of the section that uses it. *)

From Stdlib Require Import ZArith NArith Bool.
From Stdlib Require Import Strings.Ascii Strings.String.
From Stdlib Require Import Floats.
From Stdlib Require Uint63.
From stdpp Require Import base option list gmap strings.

Set Warnings "-inexact-float,-register-all".

Local Open Scope float_scope.
Local Open Scope stdpp_scope.

(** ** JavaScript strings *)

Module JS.

(** [\s] of a regular expression and the characters [String.prototype.trim]
    strips: TAB, LF, VT, FF, CR, SPACE and NBSP (the members below 256). *)
Definition is_space (a : ascii) : bool :=
  match N_of_ascii a with
  | 9 | 10 | 11 | 12 | 13 | 32 | 160 => true
  | _ => false
  end%N.

(** A line terminator, which [.] does not match: LF and CR. *)
Definition is_line_terminator (a : ascii) : bool :=
  match N_of_ascii a with
  | 10 | 13 => true
  | _ => false
  end%N.

Fixpoint trimStart (s : string) : string :=
  match s with
  | EmptyString => EmptyString
  | String a s' => if is_space a then trimStart s' else s
  end.

Definition is_empty (s : string) : bool :=
  match s with EmptyString => true | String _ _ => false end.

Fixpoint trimEnd (s : string) : string :=
  match s with
  | EmptyString => EmptyString
  | String a s' =>
      let r := trimEnd s' in
      if is_space a && is_empty r then EmptyString else String a r
  end.

(** [s.trim()] *)
Definition trim (s : string) : string := trimEnd (trimStart s).

(** [s.split(sep)] for a one-character separator, as its first piece and
    the others: the result of [split] is never the empty array. *)
Fixpoint split_ne (sep : ascii) (s : string) : string * list string :=
  match s with
  | EmptyString => (EmptyString, [])
  | String a s' =>
      let '(h, t) := split_ne sep s' in
      if Ascii.eqb a sep then (EmptyString, h :: t) else (String a h, t)
  end.

Definition split (sep : ascii) (s : string) : list string :=
  let '(h, t) := split_ne sep s in h :: t.

(** [l.join(sep)] *)
Fixpoint join (sep : string) (l : list string) : string :=
  match l with
  | [] => EmptyString
  | [x] => x
  | x :: l' => x +:+ sep +:+ join sep l'
  end.

(** [s.startsWith(c)], [s.endsWith(c)] and [s.includes(c)] for a
    one-character [c]. *)
Definition startsWith (c : ascii) (s : string) : bool :=
  match s with
  | String a _ => Ascii.eqb a c
  | EmptyString => false
  end.

Fixpoint endsWith (c : ascii) (s : string) : bool :=
  match s with
  | EmptyString => false
  | String a EmptyString => Ascii.eqb a c
  | String _ s' => endsWith c s'
  end.

Fixpoint includes (c : ascii) (s : string) : bool :=
  match s with
  | EmptyString => false
  | String a s' => Ascii.eqb a c || includes c s'
  end.

Definition lower (a : ascii) : ascii :=
  let n := N_of_ascii a in
  if ((65 <=? n) && (n <=? 90)
      || (192 <=? n) && (n <=? 222) && negb (n =? 215))%N
  then ascii_of_N (n + 32) else a.

(** [s.toLowerCase()] *)
Fixpoint toLowerCase (s : string) : string :=
  match s with
  | EmptyString => EmptyString
  | String a s' => String (lower a) (toLowerCase s')
  end.

(** [s.replace(/\s+/g, c)]: every maximal run of white space becomes one
    [c]; [in_run] says that the previous character was white space. *)
Fixpoint replace_spaces_from (in_run : bool) (c : ascii) (s : string) : string :=
  match s with
  | EmptyString => EmptyString
  | String a s' =>
      if is_space a
      then if in_run then replace_spaces_from true c s'
           else String c (replace_spaces_from true c s')
      else String a (replace_spaces_from false c s')
  end.

Definition replace_spaces (c : ascii) (s : string) : string :=
  replace_spaces_from false c s.

(** [s.replace(/c/g, '')] for a one-character [c]. *)
Fixpoint remove_char (c : ascii) (s : string) : string :=
  match s with
  | EmptyString => EmptyString
  | String a s' =>
      if Ascii.eqb a c then remove_char c s' else String a (remove_char c s')
  end.

(** The first [n] characters of [s], and [s] without them. *)
Fixpoint take (n : nat) (s : string) : string :=
  match n, s with
  | S n', String a s' => String a (take n' s')
  | _, _ => EmptyString
  end.

Fixpoint drop (n : nat) (s : string) : string :=
  match n, s with
  | S n', String _ s' => drop n' s'
  | _, _ => s
  end.

(** The string ['\n']. *)
Definition LF : string := String "010" EmptyString.

(** A truthy number: neither [0], [-0] nor [NaN]. *)
Definition truthy (x : float) : bool :=
  negb (PrimFloat.eqb x 0 || PrimFloat.is_nan x).

End JS.

(** ** The regular expression of the pre-parser

    [/^\s*([^:]+):\s*(.+)\s*$/] is a sequence of greedy repetitions of a
    character class and literal characters, anchored at both ends.  A
    backtracking matcher tries, for each repetition, the longest run first
    and then every shorter one down to its minimum; the first way that lets
    the rest of the pattern match is the match. *)

Module Regex.

Inductive atom :=
| Rep (cls : ascii -> bool) (min : nat) (capture : bool)
| Chr (c : ascii).

(** The length of the longest prefix of [s] made of [cls] characters. *)
Fixpoint span (cls : ascii -> bool) (s : string) : nat :=
  match s with
  | String a s' => if cls a then S (span cls s') else 0
  | EmptyString => 0
  end.

(** [try n], else [try (n-1)], ... down to [try min]. *)
Fixpoint backtrack {R} (try : nat -> option R) (min n : nat) : option R :=
  if (n <? min)%nat then None
  else match try n with
       | Some r => Some r
       | None => match n with
                 | O => None
                 | S n' => backtrack try min n'
                 end
       end.

(** Match the whole of [s] against [p]; the result is the list of the
    captured groups, in order. *)
Fixpoint exec (p : list atom) (s : string) : option (list string) :=
  match p with
  | [] => if JS.is_empty s then Some [] else None
  | Chr c :: p' =>
      match s with
      | String a s' => if Ascii.eqb a c then exec p' s' else None
      | EmptyString => None
      end
  | Rep cls min capture :: p' =>
      backtrack
        (fun k =>
           match exec p' (JS.drop k s) with
           | Some groups =>
               Some (if capture then JS.take k s :: groups else groups)
           | None => None
           end)
        min (span cls s)
  end.

End Regex.

(** ** The interfaces of [types.ts] *)

Record ProvenanceEntry := {
  field : string;
  span : option (nat * nat);
  snippet : string;
  confidence_score : option float;
  top_3_alternatives : option (list string)
}.

Record Meta := {
  vendor : option string;
  model : option string;
  run_id : option string;
  protocol : option string;
  link_type : option string;
  profile : option string;
  firmware_version : option string;
  timestamp : option string
}.

Record Link := {
  distance_km : option float;
  fiber_loss_dB : option float;
  alpha_dB_per_km : option float
}.

Record Security := {
  epsilon : option float;
  epsilon_sec : option float;
  epsilon_cor : option float;
  qber_total : option float;
  sifted_bits : option float;
  sifted_key_rate_bps : option float;
  basis_reconciliation : option string;
  authentication : option string;
  post_processing : option bool
}.

Record Detector := {
  count_rate_Mcps : option float;
  max_Mcps : option float
}.

Record Dwdm := {
  channel_nm : option float;
  channel_THz : option float;
  spacing_GHz : option float
}.

Record Optics := {
  launch_power_dBm : option float;
  launch_power_mW : option float
}.

Record DvSpecific := {
  ec_efficiency_beta : option float
}.

(** [QKDNormalizedV1].  The calculator reads [security] and [dv_specific]
    through [?.], so a record that lacks the section is an input too: every
    section is an [option]. *)
Record QKDNormalizedV1 := {
  meta : option Meta;
  link : option Link;
  security : option Security;
  detector : option Detector;
  dwdm : option Dwdm;
  optics : option Optics;
  dv_specific : option DvSpecific;
  _provenance : option (list ProvenanceEntry);
  notes : option string
}.

(** [value] is [string | number] in the interface; every call of [addTrace]
    passes a number. *)
Record SKRTraceEntry := {
  step : string;
  value : float;
  formula : option string
}.

Record FiniteKeyCalculation := {
  equation : string;
  inputs : gmap string float;
  intermediates : gmap string float;
  R_secure_bps : option float;
  error : option string;
  trace : list SKRTraceEntry
}.

(** ** [preParseWithRegex] *)

(** The values of the object the pre-parser builds ([preParsedData: any]):
    numbers, strings and nested objects. *)
Inductive jsval :=
| JNum (x : float)
| JStr (s : string)
| JObj (props : gmap string jsval).

(** [preParsedData]: its [_provenance] array, and its other properties. *)
Record PreParsed := {
  sections : gmap string jsval;
  provenance : list ProvenanceEntry
}.

(** A call either returns or throws a [TypeError]. *)
Inductive outcome (A : Type) :=
| Returned (a : A)
| TypeError.
Arguments Returned {A} a.
Arguments TypeError {A}.

Definition keyMap : gmap string string :=
  list_to_map
    [ ("vendor", "meta.vendor"); ("model", "meta.model");
      ("run_id", "meta.run_id"); ("protocol", "meta.protocol");
      ("link_type", "meta.link_type"); ("profile", "meta.profile");
      ("firmware_version", "meta.firmware_version");
      ("timestamp", "meta.timestamp"); ("distance_km", "link.distance_km");
      ("fiber_loss_db", "link.fiber_loss_dB");
      ("alpha_db_per_km", "link.alpha_dB_per_km");
      ("epsilon", "security.epsilon"); ("qber_total", "security.qber_total");
      ("sifted_bits", "security.sifted_bits");
      ("sifted_key_rate_bps", "security.sifted_key_rate_bps");
      ("basis_reconciliation", "security.basis_reconciliation");
      ("authentication", "security.authentication");
      ("count_rate_mcps", "detector.count_rate_Mcps");
      ("detector_count_rate_mcps", "detector.count_rate_Mcps");
      ("max_mcps", "detector.max_Mcps");
      ("detector_max_mcps", "detector.max_Mcps") ].

(** [keyMap] is an object literal, so [keyMap[key]] also finds what it
    inherits from [Object.prototype].  A key is lower case when it is looked
    up, and the lower-case names there are [constructor] (the function
    [Object]) and [__proto__] (the prototype object). *)
Definition inherited (key : string) : bool :=
  bool_decide (key = "constructor") || bool_decide (key = "__proto__").

Inductive property :=
| Own (path : string)
| Inherited
| Undefined.

Definition keyMap_get (key : string) : property :=
  match keyMap !! key with
  | Some path => Own path
  | None => if inherited key then Inherited else Undefined
  end.

(** The pattern [/^\s*([^:]+):\s*(.+)\s*$/] and [line.match] with it. *)
Definition key_value_pattern : list Regex.atom :=
  [ Regex.Rep JS.is_space 0 false;
    Regex.Rep (fun a => negb (Ascii.eqb a ":")) 1 true;
    Regex.Chr ":";
    Regex.Rep JS.is_space 0 false;
    Regex.Rep (fun a => negb (JS.is_line_terminator a)) 1 true;
    Regex.Rep JS.is_space 0 false ].

Definition line_match (line : string) : option (string * string) :=
  match Regex.exec key_value_pattern line with
  | Some [g1; g2] => Some (g1, g2)
  | _ => None
  end.

(** [match[1].trim().toLowerCase().replace(/\s+/g, '_')] *)
Definition normalize_key (g1 : string) : string :=
  JS.replace_spaces "_" (JS.toLowerCase (JS.trim g1)).

(** The guard: the input looks like JSON or CSV. *)
Definition looks_structured (logs : string) : bool :=
  let lines := JS.split_ne "010" logs in
  let trimmedLogs := JS.trim logs in
  (JS.startsWith "{" trimmedLogs && JS.endsWith "}" trimmedLogs)
  || (JS.startsWith "[" trimmedLogs && JS.endsWith "]" trimmedLogs)
  || JS.includes "," (fst lines).

(** [current[k] || {}] followed by [current = current[k]]: the object to
    descend into.  A truthy number or string is kept by [||], and the next
    assignment, to a property of a primitive, throws in an ES module.  (The
    keys of the paths of [keyMap] are not names that an object inherits, so
    [current[k]] is the own property.) *)
Definition child (v : option jsval) : outcome (gmap string jsval) :=
  match v with
  | None => Returned ∅
  | Some (JObj o) => Returned o
  | Some (JNum x) => if JS.truthy x then TypeError else Returned ∅
  | Some (JStr s) => if JS.is_empty s then Returned ∅ else TypeError
  end.

(** The loop of [setNestedValue] along the keys [k :: ks] of the path, and
    the final assignment of [v]. *)
Fixpoint assign_path (current : gmap string jsval) (k : string)
    (ks : list string) (v : jsval) : outcome (gmap string jsval) :=
  match ks with
  | [] => Returned (<[k := v]> current)
  | k' :: ks' =>
      match child (current !! k) with
      | Returned o =>
          match assign_path o k' ks' v with
          | Returned o' => Returned (<[k := JObj o']> current)
          | TypeError => TypeError
          end
      | TypeError => TypeError
      end
  end.

(** Reading a dotted path back. *)
Fixpoint read_path (current : gmap string jsval) (k : string)
    (ks : list string) : option jsval :=
  match ks with
  | [] => current !! k
  | k' :: ks' =>
      match current !! k with
      | Some (JObj o) => read_path o k' ks'
      | _ => None
      end
  end.

Definition get_path (obj : gmap string jsval) (path : string) : option jsval :=
  let '(k, ks) := JS.split_ne "." path in read_path obj k ks.

Section PreParser.

(** [Number(s)]: the runtime's conversion of a string to a number. *)
Variable Number : string -> float.

(** The value [setNestedValue] stores. *)
Definition coerce (value : string) : jsval :=
  let cleanedValue := JS.remove_char "_" value in
  let numValue := Number cleanedValue in
  if negb (PrimFloat.is_nan numValue) && negb (JS.is_empty (JS.trim cleanedValue))
  then JNum numValue else JStr value.

Definition setNestedValue (obj : gmap string jsval) (path : string)
    (value : string) : outcome (gmap string jsval) :=
  let '(k, ks) := JS.split_ne "." path in
  assign_path obj k ks (coerce value).

(** The state of the [forEach] loop. *)
Record scan := {
  preParsedData : PreParsed;
  remainingLines : list string
}.

Definition entry (path line : string) : ProvenanceEntry :=
  {| field := path; span := None; snippet := JS.trim line;
     confidence_score := Some 1.0; top_3_alternatives := None |}.

(** The body of the [forEach] callback. *)
Definition visit (st : scan) (line : string) : outcome scan :=
  let keep :=
    {| preParsedData := preParsedData st;
       remainingLines := remainingLines st ++ [line] |} in
  match line_match line with
  | Some (g1, g2) =>
      let key := normalize_key g1 in
      let value := JS.trim g2 in
      match keyMap_get key with
      | Own path =>
          if JS.is_empty path then Returned keep
          else
            match setNestedValue (sections (preParsedData st)) path value with
            | Returned obj =>
                Returned
                  {| preParsedData :=
                       {| sections := obj;
                          provenance :=
                            provenance (preParsedData st) ++ [entry path line] |};
                     remainingLines := remainingLines st |}
            | TypeError => TypeError
            end
      | Inherited => TypeError (* [path.split] is not a function *)
      | Undefined => Returned keep
      end
  | None => Returned keep
  end.

Fixpoint forEach (lines : list string) (st : scan) : outcome scan :=
  match lines with
  | [] => Returned st
  | line :: lines' =>
      match visit st line with
      | Returned st' => forEach lines' st'
      | TypeError => TypeError
      end
  end.

Definition empty_parse : PreParsed := {| sections := ∅; provenance := [] |}.

Definition preParseWithRegex (logs : string) : outcome (PreParsed * string) :=
  if looks_structured logs then Returned (empty_parse, logs)
  else
    match forEach (JS.split "010" logs)
            {| preParsedData := empty_parse; remainingLines := [] |} with
    | Returned st =>
        Returned (preParsedData st, JS.trim (JS.join JS.LF (remainingLines st)))
    | TypeError => TypeError
    end.

End PreParser.

(** ** [normalizeLogs]: the reconciliation of the provenance arrays

    The three statements that follow the call of the language model: the
    fields of the pre-parsed entries as a [Set], the model's entries that are
    not in it, and the pre-parsed entries followed by those. *)
Definition reconcileProvenance (preParsedData : PreParsed)
    (llmResult : QKDNormalizedV1) : QKDNormalizedV1 :=
  let preParsedFields : gset string :=
    list_to_set (field <$> provenance preParsedData) in
  let uniqueLlmProvenance :=
    filter (fun p => field p ∉ preParsedFields)
      (default [] (_provenance llmResult)) in
  {| meta := meta llmResult; link := link llmResult;
     security := security llmResult; detector := detector llmResult;
     dwdm := dwdm llmResult; optics := optics llmResult;
     dv_specific := dv_specific llmResult;
     _provenance := Some (provenance preParsedData ++ uniqueLlmProvenance);
     notes := notes llmResult |}.

(** ** [calculateSecureSKR_deterministic] *)

(** The body of the [try] block runs in a monad that threads the [trace]
    array and either completes or throws [new Error(message)]; the array
    outlives a throw, as the [catch] clause reads it. *)
Module Try.

Inductive completion (A : Type) :=
| Normal (a : A)
| Throw (message : string).
Arguments Normal {A} a.
Arguments Throw {A} message.

Definition t (A : Type) : Type :=
  list SKRTraceEntry -> completion A * list SKRTraceEntry.

Definition ret {A} (a : A) : t A := fun trace => (Normal a, trace).

Definition bind {A B} (m : t A) (k : A -> t B) : t B :=
  fun trace =>
    match m trace with
    | (Normal a, trace') => k a trace'
    | (Throw message, trace') => (Throw message, trace')
    end.

Definition throw {A} (message : string) : t A :=
  fun trace => (Throw message, trace).

Definition get_trace : t (list SKRTraceEntry) :=
  fun trace => (Normal trace, trace).

(** [trace.push({ step, value, formula })] *)
Definition addTrace (step : string) (value : float) (formula : string) : t unit :=
  fun trace =>
    (Normal tt,
     trace ++ [{| step := step; value := value; formula := Some formula |}]).

End Try.

Declare Scope try_scope.
Delimit Scope try_scope with try.
Notation "x <- m ;; k" := (Try.bind m (fun x => k))
  (at level 100, m at next level, right associativity) : try_scope.
Notation "m ;; k" := (Try.bind m (fun _ => k))
  (at level 100, right associativity) : try_scope.

Definition is_null {A} (o : option A) : bool :=
  match o with None => true | Some _ => false end.

(** The local variables of the calculator once the inputs are read and the
    two defaults are applied: [S_bps], [Q_raw], [beta], [N], [eps_sec] and
    [eps_cor]. *)
Record Resolved := {
  in_S_bps : option float;
  in_Q : option float;
  in_beta : float;
  in_N : option float;
  in_eps_sec : option float;
  in_eps_cor : option float
}.

Local Open Scope try_scope.

(** The first statements of the [try] block: the reads through [?.], the
    substitution of the single epsilon and the default of [beta]. *)
Definition resolve_inputs (data : QKDNormalizedV1) : Try.t Resolved :=
  let S_bps := security data ≫= sifted_key_rate_bps in
  let Q_raw := security data ≫= qber_total in
  let beta := dv_specific data ≫= ec_efficiency_beta in
  let N := security data ≫= sifted_bits in
  let eps_sec := security data ≫= epsilon_sec in
  let eps_cor := security data ≫= epsilon_cor in
  let single_eps := security data ≫= epsilon in
  eps <-
    match single_eps with
    | Some e =>
        if JS.truthy e && is_null eps_sec && is_null eps_cor
        then Try.addTrace "Epsilon" e "Used single epsilon for both sec/cor" ;;
             Try.ret (Some e, Some e)
        else Try.ret (eps_sec, eps_cor)
    | None => Try.ret (eps_sec, eps_cor)
    end ;;
  beta <-
    match beta with
    | None =>
        Try.addTrace "EC Efficiency (β)" 1.1 "Default value assumed" ;;
        Try.ret 1.1
    | Some b => Try.ret b
    end ;;
  Try.ret {| in_S_bps := S_bps; in_Q := Q_raw; in_beta := beta; in_N := N;
             in_eps_sec := fst eps; in_eps_cor := snd eps |}.

(** The names pushed on [missing], in the order of the five tests. *)
Definition missing_fields (r : Resolved) : list string :=
  (if is_null (in_S_bps r) then ["security.sifted_key_rate_bps"] else [])
  ++ (if is_null (in_Q r) then ["security.qber_total"] else [])
  ++ (if is_null (in_N r) then ["security.sifted_bits"] else [])
  ++ (if is_null (in_eps_sec r) then ["security.epsilon_sec (or epsilon)"] else [])
  ++ (if is_null (in_eps_cor r) then ["security.epsilon_cor (or epsilon)"] else []).

Definition missing_message (missing : list string) : string :=
  "Input validation failed: Missing required fields: "
  +:+ JS.join ", " missing +:+ ".".

Definition equation_text : string :=
  "R_secure_bps = (S/N) * [N * (1 - h₂(Q)) - (N * h₂(Q) * β) - Δ]".

Section Calculator.

(** [Math.log2], and the conversion of a number to a string that a
    template literal performs. *)
Variable log2 : float -> float.
Variable toString : float -> string.

Definition h2 (q : float) : float :=
  if (q <=? 0) || (1 <=? q) then 0
  else (- q) * log2 q - (1 - q) * log2 (1 - q).

Definition threshold_message (Q_raw : float) : string :=
  "QBER (" +:+ toString Q_raw
  +:+ ") exceeds theoretical security limit for BB84 (0.11). Secure key rate is zero.".

(** The rest of the [try] block: validation, the trace of the inputs, the
    threshold and the computation. *)
Definition compute (r : Resolved) : Try.t FiniteKeyCalculation :=
  let missing := missing_fields r in
  if (0 <? length missing)%nat then Try.throw (missing_message missing)
  else
    match in_S_bps r, in_Q r, in_N r, in_eps_sec r, in_eps_cor r with
    | Some S_bps, Some Q_raw, Some N, Some eps_sec, Some eps_cor =>
        let beta := in_beta r in
        Try.addTrace "Sifted Rate (S)" S_bps "Input" ;;
        Try.addTrace "QBER (Q)" Q_raw "Input" ;;
        Try.addTrace "EC Efficiency (β)" beta "Input or Default" ;;
        Try.addTrace "Block Size (N)" N "Input" ;;
        Try.addTrace "ε_sec" eps_sec "Input" ;;
        Try.addTrace "ε_cor" eps_cor "Input" ;;
        if 0.11 <? Q_raw then Try.throw (threshold_message Q_raw)
        else
          let h2_Q := h2 Q_raw in
          Try.addTrace "h₂(Q)" h2_Q "-Q*log₂(Q) - (1-Q)*log₂(1-Q)" ;;
          let leakage_ec_bits := N * h2_Q * beta in
          Try.addTrace "Leak_EC" leakage_ec_bits "N * h₂(Q) * β" ;;
          let finite_penalty_bits :=
            2 * log2 (1 / eps_cor)
            + 4 * log2 (1 / (2 * eps_sec)) * PrimFloat.sqrt (N * Q_raw * (1 - Q_raw)) in
          Try.addTrace "Δ (Penalty)" finite_penalty_bits "Finite-size penalty term" ;;
          let R_secure_bits :=
            N * (1 - h2_Q) - leakage_ec_bits - finite_penalty_bits in
          Try.addTrace "R_secure_bits" R_secure_bits "N*(1 - h₂(Q)) - Leak_EC - Δ" ;;
          let R_secure_bps := (R_secure_bits / N) * S_bps in
          let R_secure_bps := if R_secure_bps <? 0 then 0 else R_secure_bps in
          Try.addTrace "R_secure_bps" R_secure_bps
            "(R_secure_bits / N) * S_bps (clamped to 0)" ;;
          trace <- Try.get_trace ;;
          Try.ret
            {| equation := equation_text;
               inputs :=
                 list_to_map
                   [ ("S_bps", S_bps); ("Q", Q_raw); ("beta", beta);
                     ("N", N); ("eps_sec", eps_sec); ("eps_cor", eps_cor) ];
               intermediates :=
                 list_to_map
                   [ ("h2_Q", h2_Q); ("leakage_ec_bits", leakage_ec_bits);
                     ("finite_penalty_bits", finite_penalty_bits) ];
               R_secure_bps := Some R_secure_bps;
               error := None;
               trace := trace |}
    | _, _, _, _, _ =>
        (* not reached: [missing] is empty only when the five are present *)
        Try.throw (missing_message missing)
    end.

Definition try_block (data : QKDNormalizedV1) : Try.t FiniteKeyCalculation :=
  r <- resolve_inputs data ;; compute r.

(** The function: the [try] block on an empty trace, and the [catch]
    clause. *)
Definition calculateSecureSKR_deterministic (data : QKDNormalizedV1)
  : FiniteKeyCalculation :=
  match try_block data [] with
  | (Try.Normal result, _) => result
  | (Try.Throw message, trace) =>
      {| equation := equation_text;
         inputs := ∅;
         intermediates := ∅;
         R_secure_bps := None;
         error := Some message;
         trace := trace |}
  end.

End Calculator.

Local Close Scope try_scope.

(** ** The application: the result card and the validation checklist

    The two components of [App.tsx] that decide what is shown from a
    result; their markup is left out, what they compute is kept. *)

(** [SKRResultCard]: the verdict FAIL with its text, or the rate that is
    displayed. *)
Inductive card :=
| Fail (text : string)
| Pass (rate : float).

(** [!!result.error || result.R_secure_bps === null
     || result.R_secure_bps <= 0] *)
Definition hasError (result : FiniteKeyCalculation) : bool :=
  match error result with
  | Some message => negb (JS.is_empty message)
  | None => false
  end
  || match R_secure_bps result with
     | None => true
     | Some rate => rate <=? 0
     end.

Definition SKRResultCard (result : FiniteKeyCalculation) : card :=
  if hasError result
  then Fail
         match error result with
         | Some message =>
             if JS.is_empty message
             then "Secure Key Rate is zero or could not be computed."
             else message
         | None => "Secure Key Rate is zero or could not be computed."
         end
  else Pass (default 0 (R_secure_bps result)).

Inductive Plan := free | pro | enterprise.

Inductive ValidationStatus := passed | failed | undetermined.

Record ValidationRuleResult := {
  rule : string;
  status : ValidationStatus;
  explanation : string;
  autofix : option string
}.

(** [ValidationChecklist]: the results it lists, [results.slice(0,
    rulesToShow)], and the number in its upgrade note, shown when
    [hiddenRules > 0]. *)
Record checklist := {
  listed : list ValidationRuleResult;
  upgrade_note : option Z
}.

Definition ValidationChecklist (results : list ValidationRuleResult)
    (plan : Plan) : checklist :=
  let rulesToShow : Z :=
    match plan with
    | free => 5
    | _ => Z.of_nat (length results)
    end%Z in
  let hiddenRules : Z := (Z.of_nat (length results) - rulesToShow)%Z in
  {| listed := take (Z.to_nat rulesToShow) results;
     upgrade_note := if (0 <? hiddenRules)%Z then Some hiddenRules else None |}.

(** ** A runtime to run the model on concrete inputs

    The functions above take the runtime's [Math.log2] and conversions between
    numbers and strings as parameters, and every theorem below holds for all
    of them.  The examples need one: [log2] by repeated squaring of the
    mantissa, numbers written in decimal notation with the fewest decimals
    that read back as the same number, and decimal literals read as the
    quotient of an integer by a power of ten.  They stand for the runtime's
    functions on the values of the examples only. *)
Module Sample.

Definition float_of_Z (z : Z) : float :=
  if (z <? 0)%Z then - of_uint63 (Uint63.of_Z (- z))
  else of_uint63 (Uint63.of_Z z).

Fixpoint log2_mantissa (n : nat) (y bit acc : float) : float :=
  match n with
  | O => acc
  | S n' =>
      let y2 := y * y in
      if 2 <=? y2 then log2_mantissa n' (y2 / 2) (bit / 2) (acc + bit)
      else log2_mantissa n' y2 (bit / 2) acc
  end.

Definition log2 (x : float) : float :=
  if is_nan x || (x <? 0) then nan
  else if x =? 0 then neg_infinity
  else if x =? infinity then infinity
  else let '(m, e) := Z.frexp x in
       float_of_Z (e - 1) + log2_mantissa 53 (2 * m) 0.5 0.

(** The integer nearest to a finite [y >= 0]. *)
Definition nearest (y : float) : Z :=
  let '(m, e) := Z.frexp y in
  let M := Uint63.to_Z (normfr_mantissa m) in
  let sh := (e - 53)%Z in
  if (0 <=? sh)%Z then (M * 2 ^ sh)%Z
  else ((M + 2 ^ (- sh - 1)) / 2 ^ (- sh))%Z.

Definition digit_char (d : Z) : ascii := ascii_of_N (Z.to_N (48 + d)).

Fixpoint digits_of (k : nat) (n : Z) (acc : string) : string :=
  match k with
  | O => acc
  | S k' => digits_of k' (n / 10) (String (digit_char (n mod 10)) acc)
  end.

Fixpoint integer_digits (fuel : nat) (n : Z) (acc : string) : string :=
  match fuel with
  | O => acc
  | S fuel' =>
      let acc' := String (digit_char (n mod 10)) acc in
      if (n <? 10)%Z then acc' else integer_digits fuel' (n / 10) acc'
  end.

Definition decimal (n : Z) (k : nat) : string :=
  let p := (10 ^ Z.of_nat k)%Z in
  integer_digits 400 (n / p) ""
  +:+ match k with
      | O => ""
      | S _ => String "." (digits_of k (n mod p) "")
      end.

Fixpoint shortest (fuel k : nat) (a : float) : string :=
  let p := float_of_Z (10 ^ Z.of_nat k) in
  let n := nearest (a * p) in
  match fuel with
  | O => decimal n k
  | S fuel' =>
      if float_of_Z n / p =? a then decimal n k else shortest fuel' (S k) a
  end.

Definition toString (x : float) : string :=
  if is_nan x then "NaN"
  else if x =? infinity then "Infinity"
  else if x =? neg_infinity then "-Infinity"
  else if x <? 0 then String "-" (shortest 17 0 (- x))
  else shortest 17 0 x.

Definition digit (a : ascii) : option Z :=
  let n := Z.of_N (N_of_ascii a) in
  if ((48 <=? n) && (n <=? 57))%Z then Some (n - 48)%Z else None.

(** The digits at the head of [s]: their value after [acc], how many they
    are, and the rest of [s]. *)
Fixpoint digits (acc : Z) (count : nat) (s : string) : Z * nat * string :=
  match s with
  | String a s' =>
      match digit a with
      | Some d => digits (10 * acc + d) (S count) s'
      | None => (acc, count, s)
      end
  | EmptyString => (acc, count, s)
  end.

Definition unsigned (s : string) : float :=
  let '(i, ni, rest) := digits 0 0 s in
  match rest with
  | EmptyString => if (ni =? 0)%nat then nan else float_of_Z i
  | String "." rest' =>
      let '(f, nf, rest'') := digits i 0 rest' in
      if JS.is_empty rest'' && negb ((ni + nf =? 0)%nat)
      then float_of_Z f / float_of_Z (10 ^ Z.of_nat nf)
      else nan
  | _ => nan
  end.

Definition Number (s : string) : float :=
  match s with
  | EmptyString => 0
  | String "-" s' => - unsigned s'
  | String "+" s' => unsigned s'
  | _ => unsigned s
  end.

End Sample.

(** ** Inputs of the examples *)

(** A security section with every field [null]. *)
Definition empty_security : Security :=
  {| epsilon := None; epsilon_sec := None; epsilon_cor := None;
     qber_total := None; sifted_bits := None; sifted_key_rate_bps := None;
     basis_reconciliation := None; authentication := None;
     post_processing := None |}.

(** A record with the given numbers in its security section and nothing
    else. *)
Definition security_with (epsilon epsilon_sec epsilon_cor qber_total
    sifted_bits sifted_key_rate_bps : option float) : Security :=
  {| epsilon := epsilon; epsilon_sec := epsilon_sec;
     epsilon_cor := epsilon_cor; qber_total := qber_total;
     sifted_bits := sifted_bits; sifted_key_rate_bps := sifted_key_rate_bps;
     basis_reconciliation := None; authentication := None;
     post_processing := None |}.

Definition record_with (sec : Security) : QKDNormalizedV1 :=
  {| meta := None; link := None; security := Some sec; detector := None;
     dwdm := None; optics := None; dv_specific := None; _provenance := None;
     notes := None |}.

(** The numbers of the sample logs [H1: Toshiba] and [N2: High QBER] of
    [constants.ts]. *)
Definition toshiba : QKDNormalizedV1 :=
  record_with
    (security_with (Some 1e-9) None None (Some 0.026) (Some 1500000)
       (Some 180000)).

Definition high_qber : QKDNormalizedV1 :=
  record_with
    (security_with (Some 1e-9) None None (Some 0.18) (Some 1600000)
       (Some 50000)).

(** The first record with [Q] at the threshold and just above it. *)
Definition at_threshold : QKDNormalizedV1 :=
  record_with
    (security_with (Some 1e-9) None None (Some 0.11) (Some 1500000)
       (Some 180000)).

Definition above_threshold : QKDNormalizedV1 :=
  record_with
    (security_with (Some 1e-9) None None (Some 0.110001) (Some 1500000)
       (Some 180000)).

(** The first record with the two epsilons given on their own. *)
Definition two_epsilons : QKDNormalizedV1 :=
  record_with
    (security_with (Some 1e-6) (Some 1e-9) (Some 1e-10) (Some 0.026)
       (Some 1500000) (Some 180000)).

(** The first record with a single epsilon of zero. *)
Definition zero_epsilon : QKDNormalizedV1 :=
  record_with
    (security_with (Some 0) None None (Some 0.026) (Some 1500000)
       (Some 180000)).

(** A record whose security section is empty. *)
Definition no_security : QKDNormalizedV1 := record_with empty_security.

(** The first record with a negative [epsilon_sec], and with a negative
    [qber_total]: the first makes the argument of a [Math.log2] negative,
    the second that of the [Math.sqrt]. *)
Definition negative_epsilon : QKDNormalizedV1 :=
  record_with
    (security_with None (Some (-1)) (Some 1e-9) (Some 0.026) (Some 1500000)
       (Some 180000)).

Definition negative_qber : QKDNormalizedV1 :=
  record_with
    (security_with (Some 1e-9) None None (Some (-0.1)) (Some 1500000)
       (Some 180000)).

(** The entry that notes the default of [beta]. *)
Definition beta_entry : SKRTraceEntry :=
  {| step := "EC Efficiency (β)"; value := 1.1;
     formula := Some "Default value assumed" |}.

(** Texts for the pre-parser. *)
Definition csv_text : string := "a,b,c" +:+ JS.LF +:+ "1,2,3".

Definition table_text : string :=
  "note" +:+ JS.LF +:+ "  vendor: CDOT" +:+ JS.LF +:+ "foo: bar"
  +:+ JS.LF +:+ "sifted_bits: 1_050_000".

Definition two_vendors : string := "vendor: A" +:+ JS.LF +:+ "vendor: B".

(** Provenance entries of a language model, with a confidence below one. *)
Definition llm_entry (path snippet : string) : ProvenanceEntry :=
  {| field := path; span := None; snippet := snippet;
     confidence_score := Some 0.8; top_3_alternatives := None |}.

Definition llm_record (entries : list ProvenanceEntry) : QKDNormalizedV1 :=
  {| meta := None; link := None; security := None; detector := None;
     dwdm := None; optics := None; dv_specific := None;
     _provenance := Some entries; notes := None |}.

(** Records for the further properties: one with no security section, one
    with a lone [epsilon_sec] beside a single epsilon, and two that differ
    only outside the numbers the calculator reads. *)
Definition no_section : QKDNormalizedV1 :=
  {| meta := None; link := None; security := None; detector := None;
     dwdm := None; optics := None; dv_specific := None; _provenance := None;
     notes := None |}.

Definition lone_epsilon_sec : QKDNormalizedV1 :=
  record_with
    (security_with (Some 1e-9) (Some 1e-9) None (Some 0.026) (Some 1500000)
       (Some 180000)).

Definition toshiba_e91 : QKDNormalizedV1 :=
  {| meta :=
       Some {| vendor := Some "Toshiba"; model := None; run_id := None;
               protocol := Some "E91"; link_type := None; profile := None;
               firmware_version := None; timestamp := None |};
     link := None;
     security :=
       Some {| epsilon := Some 1e-9; epsilon_sec := None; epsilon_cor := None;
               qber_total := Some 0.026; sifted_bits := Some 1500000;
               sifted_key_rate_bps := Some 180000;
               basis_reconciliation := Some "Cascade";
               authentication := None; post_processing := Some true |};
     detector := None; dwdm := None; optics := None; dv_specific := None;
     _provenance := None; notes := Some "field trial" |}.

(** A record with an explicit [beta]. *)
Definition toshiba_beta : QKDNormalizedV1 :=
  {| meta := None; link := None;
     security :=
       Some (security_with (Some 1e-9) None None (Some 0.026) (Some 1500000)
               (Some 180000));
     detector := None; dwdm := None; optics := None;
     dv_specific := Some {| ec_efficiency_beta := Some 1.2 |};
     _provenance := None; notes := None |}.

(** ** Vocabulary of the statements *)

(** [s] occurs in [t]. *)
Definition Substring (s t : string) : Prop :=
  exists a b, t = a +:+ s +:+ b.

(** Every character of [s] is in the class [cls]. *)
Fixpoint every (cls : ascii -> bool) (s : string) : bool :=
  match s with
  | EmptyString => true
  | String a s' => cls a && every cls s'
  end.

(** The strings a pattern matches, with the groups it captures: each
    repetition takes a run of its class of at least its minimum length. *)
Inductive Matches : list Regex.atom -> string -> list string -> Prop :=
| Matches_end : Matches [] "" []
| Matches_chr c p s groups :
    Matches p s groups -> Matches (Regex.Chr c :: p) (String c s) groups
| Matches_rep cls min capture p u s groups :
    every cls u = true ->
    min <= String.length u ->
    Matches p s groups ->
    Matches (Regex.Rep cls min capture :: p) (u +:+ s)
      (if capture then u :: groups else groups).

(** The six entries that trace the resolved inputs, in their fixed order. *)
Definition input_entries (S_bps Q_raw beta N eps_sec eps_cor : float)
  : list SKRTraceEntry :=
  [ {| step := "Sifted Rate (S)"; value := S_bps; formula := Some "Input" |};
    {| step := "QBER (Q)"; value := Q_raw; formula := Some "Input" |};
    {| step := "EC Efficiency (β)"; value := beta;
       formula := Some "Input or Default" |};
    {| step := "Block Size (N)"; value := N; formula := Some "Input" |};
    {| step := "ε_sec"; value := eps_sec; formula := Some "Input" |};
    {| step := "ε_cor"; value := eps_cor; formula := Some "Input" |} ].

(** The entry that notes the substitution of the single epsilon. *)
Definition epsilon_entry (e : float) : SKRTraceEntry :=
  {| step := "Epsilon"; value := e;
     formula := Some "Used single epsilon for both sec/cor" |}.

(** The result the [catch] clause builds. *)
Definition failure (message : string) (trace : list SKRTraceEntry)
  : FiniteKeyCalculation :=
  {| equation := equation_text; inputs := ∅; intermediates := ∅;
     R_secure_bps := None; error := Some message; trace := trace |}.

(** [max(0, x)]: [0] when [x < 0] and [x] otherwise, so a NaN stays a NaN. *)
Definition max0 (x : float) : float := if x <? 0 then 0 else x.

(** The inputs after resolution, all five required ones present. *)
Definition all_resolved (S_bps Q_raw beta N eps_sec eps_cor : float) : Resolved :=
  {| in_S_bps := Some S_bps; in_Q := Some Q_raw; in_beta := beta;
     in_N := Some N; in_eps_sec := Some eps_sec; in_eps_cor := Some eps_cor |}.

Section CalculatorVocabulary.

Variable log2 : float -> float.

(** The binary entropy in the words of the specification, to be compared
    with [h2], the function of the source: the formula for [0 < q < 1], and
    [0] for [q <= 0] or [q >= 1]. *)
Definition binary_entropy (q : float) : float :=
  if (0 <? q) && (q <? 1) then - q * log2 q - (1 - q) * log2 (1 - q)
  else 0.

(** The finite-size penalty and the secure rate before the clamp, written
    as the specification states them. *)
Definition spec_penalty (Q_raw N eps_sec eps_cor : float) : float :=
  2 * log2 (1 / eps_cor)
  + 4 * log2 (1 / (2 * eps_sec)) * PrimFloat.sqrt (N * Q_raw * (1 - Q_raw)).

Definition spec_rate (S_bps Q_raw beta N eps_sec eps_cor : float) : float :=
  ((N * (1 - h2 log2 Q_raw) - N * h2 log2 Q_raw * beta
    - spec_penalty Q_raw N eps_sec eps_cor) / N) * S_bps.

(** The entries of the computation, after those of the inputs. *)
Definition computation_entries (S_bps Q_raw beta N eps_sec eps_cor : float)
  : list SKRTraceEntry :=
  let h2_Q := h2 log2 Q_raw in
  let leak := N * h2_Q * beta in
  let penalty := spec_penalty Q_raw N eps_sec eps_cor in
  [ {| step := "h₂(Q)"; value := h2_Q;
       formula := Some "-Q*log₂(Q) - (1-Q)*log₂(1-Q)" |};
    {| step := "Leak_EC"; value := leak; formula := Some "N * h₂(Q) * β" |};
    {| step := "Δ (Penalty)"; value := penalty;
       formula := Some "Finite-size penalty term" |};
    {| step := "R_secure_bits"; value := N * (1 - h2_Q) - leak - penalty;
       formula := Some "N*(1 - h₂(Q)) - Leak_EC - Δ" |};
    {| step := "R_secure_bps";
       value := max0 (spec_rate S_bps Q_raw beta N eps_sec eps_cor);
       formula := Some "(R_secure_bits / N) * S_bps (clamped to 0)" |} ].

(** The result of a calculation that completes. *)
Definition success (S_bps Q_raw beta N eps_sec eps_cor : float)
    (trace : list SKRTraceEntry) : FiniteKeyCalculation :=
  {| equation := equation_text;
     inputs :=
       <["S_bps" := S_bps]> (<["Q" := Q_raw]> (<["beta" := beta]>
         (<["N" := N]> (<["eps_sec" := eps_sec]>
            (<["eps_cor" := eps_cor]> ∅)))));
     intermediates :=
       <["h2_Q" := h2 log2 Q_raw]>
         (<["leakage_ec_bits" := N * h2 log2 Q_raw * beta]>
            (<["finite_penalty_bits" :=
                 spec_penalty Q_raw N eps_sec eps_cor]> ∅));
     R_secure_bps :=
       Some (max0 (spec_rate S_bps Q_raw beta N eps_sec eps_cor));
     error := None;
     trace := trace |}.

End CalculatorVocabulary.

(** A line the pre-parser recognizes: it matches the pattern and its key is
    a key of [keyMap]. *)
Definition recognized (line : string) : bool :=
  match line_match line with
  | Some (g1, _) => bool_decide (is_Some (keyMap !! normalize_key g1))
  | None => false
  end.

(** The provenance entry of a recognized line. *)
Definition line_entry (line : string) : option ProvenanceEntry :=
  match line_match line with
  | Some (g1, _) =>
      match keyMap !! normalize_key g1 with
      | Some path => Some (entry path line)
      | None => None
      end
  | None => None
  end.

(** Every property of the object is an object. *)
Definition objects_only (m : gmap string jsval) : Prop :=
  forall k v, m !! k = Some v -> exists o, v = JObj o.

(** The object under [a], or the empty object. *)
Definition section_of (m : gmap string jsval) (a : string) : gmap string jsval :=
  match m !! a with
  | Some (JObj o) => o
  | _ => ∅
  end.

(** A line that matches the pattern with a key that [keyMap] only inherits. *)
Definition hits_prototype (line : string) : bool :=
  match line_match line with
  | Some (g1, _) =>
      match keyMap_get (normalize_key g1) with
      | Inherited => true
      | _ => false
      end
  | None => false
  end.

Section PreParserVocabulary.

Variable Number : string -> float.

(** The path and the value a recognized line assigns. *)
Definition line_value (line : string) : option (string * jsval) :=
  match line_match line with
  | Some (g1, g2) =>
      match keyMap !! normalize_key g1 with
      | Some path => Some (path, coerce Number (JS.trim g2))
      | None => None
      end
  | None => None
  end.


End PreParserVocabulary.

(** * Properties *)

(** ** Numbers *)

Lemma SFleb_not_SFltb (a b : spec_float) :
  SFleb a b = true -> SFltb b a = false.
Proof.
  unfold SFleb, SFltb.
  destruct a as [sa|sa| |sa ma ea], b as [sb|sb| |sb mb eb]; simpl;
    try destruct sa; try destruct sb; simpl; try congruence.
  all: change (Pos.compare_cont Eq mb ma) with (Pos.compare mb ma);
    change (Pos.compare_cont Eq ma mb) with (Pos.compare ma mb);
    rewrite (Z.compare_antisym ea eb), (Pos.compare_antisym ma mb).
  all: destruct (Z.compare ea eb); simpl; try congruence.
  all: destruct (Pos.compare ma mb); simpl; congruence.
Qed.

(** Of two numbers neither of which is a NaN, [a <= b] is the negation of
    [b < a]. *)
Lemma SFleb_negb_SFltb (a b : spec_float) :
  a <> S754_nan -> b <> S754_nan -> SFleb a b = negb (SFltb b a).
Proof.
  unfold SFleb, SFltb. intros Ha Hb.
  destruct a as [sa|sa| |sa ma ea], b as [sb|sb| |sb mb eb]; simpl;
    try destruct sa; try destruct sb; simpl; try congruence.
  all: change (Pos.compare_cont Eq mb ma) with (Pos.compare mb ma);
    change (Pos.compare_cont Eq ma mb) with (Pos.compare ma mb);
    rewrite (Z.compare_antisym ea eb), (Pos.compare_antisym ma mb).
  all: destruct (Z.compare ea eb); simpl; try congruence.
  all: destruct (Pos.compare ma mb); simpl; congruence.
Qed.

Lemma leb_negb_ltb (x y : float) :
  Prim2SF x <> S754_nan -> Prim2SF y <> S754_nan ->
  (x <=? y) = negb (y <? x).
Proof. rewrite leb_spec, ltb_spec. apply SFleb_negb_SFltb. Qed.

(** A number that is below another is not a NaN. *)
Lemma leb_not_nan (x y : float) : (x <=? y) = true -> Prim2SF x <> S754_nan.
Proof.
  rewrite leb_spec. intros H E. rewrite E in H. discriminate H.
Qed.

(** [x <= y] excludes [y < x] (both are false when one is a NaN). *)
Lemma leb_not_ltb (x y : float) : (x <=? y) = true -> (y <? x) = false.
Proof. rewrite leb_spec, ltb_spec. apply SFleb_not_SFltb. Qed.

Lemma max0_not_negative (x : float) : (max0 x <? 0) = false.
Proof. unfold max0. destruct (x <? 0) eqn:E; [reflexivity | exact E]. Qed.

Lemma max0_of_nonnegative (x : float) : (0 <=? x) = true -> max0 x = x.
Proof. intros H. unfold max0. now rewrite (leb_not_ltb _ _ H). Qed.

Lemma max0_of_negative (x : float) : (x <? 0) = true -> max0 x = 0.
Proof. intros H. unfold max0. now rewrite H. Qed.

(** ** Strings *)

Lemma string_app_cons (x : ascii) (a b : string) :
  String x a +:+ b = String x (a +:+ b).
Proof. reflexivity. Qed.

Lemma string_app_assoc (a b c : string) : (a +:+ b) +:+ c = a +:+ b +:+ c.
Proof.
  induction a as [|x a IH]; [reflexivity |].
  now rewrite !string_app_cons, IH.
Qed.

Lemma string_app_nil_r (a : string) : a +:+ "" = a.
Proof.
  induction a as [|x a IH]; [reflexivity |].
  now rewrite string_app_cons, IH.
Qed.

Lemma Substring_app_l (s t a : string) : Substring s t -> Substring s (a +:+ t).
Proof.
  intros (u & v & ->). exists (a +:+ u), v. now rewrite string_app_assoc.
Qed.

Lemma Substring_app_r (s t b : string) : Substring s t -> Substring s (t +:+ b).
Proof.
  intros (u & v & ->). exists u, (v +:+ b). now rewrite !string_app_assoc.
Qed.

Lemma Substring_join (sep x : string) (l : list string) :
  x ∈ l -> Substring x (JS.join sep l).
Proof.
  induction l as [|y l IH]; intros Hx; [by apply elem_of_nil in Hx |].
  apply elem_of_cons in Hx as [-> | Hx].
  - destruct l as [|z l]; simpl.
    + exists "", "". now rewrite string_app_nil_r.
    + exists "", (sep +:+ JS.join sep (z :: l)). reflexivity.
  - destruct l as [|z l]; [by apply elem_of_nil in Hx |].
    change (JS.join sep (y :: z :: l)) with (y +:+ sep +:+ JS.join sep (z :: l)).
    apply Substring_app_l, Substring_app_l, IH, Hx.
Qed.

(** ** The regular expression *)

Lemma take_drop (k : nat) (s : string) : JS.take k s +:+ JS.drop k s = s.
Proof.
  revert s. induction k as [|k IH]; intros [|a s]; try reflexivity.
  simpl. now rewrite string_app_cons, IH.
Qed.

Lemma take_within_span (cls : ascii -> bool) (k : nat) (s : string) :
  k <= Regex.span cls s ->
  every cls (JS.take k s) = true /\ String.length (JS.take k s) = k.
Proof.
  revert s. induction k as [|k IH]; intros s Hk; [by destruct s |].
  destruct s as [|a s]; simpl in Hk; [lia |].
  destruct (cls a) eqn:Ha; [| lia].
  destruct (IH s) as [H1 H2]; [lia |]. simpl. rewrite Ha, H1, H2. done.
Qed.

Lemma span_of_run (cls : ascii -> bool) (u s : string) :
  every cls u = true -> String.length u <= Regex.span cls (u +:+ s).
Proof.
  induction u as [|a u IH]; [simpl; lia |].
  rewrite string_app_cons. simpl.
  destruct (cls a); [| discriminate]. intros H. specialize (IH H). lia.
Qed.

Lemma drop_run (u s : string) : JS.drop (String.length u) (u +:+ s) = s.
Proof. induction u as [|a u IH]; [by destruct s | exact IH]. Qed.

Lemma take_run (u s : string) : JS.take (String.length u) (u +:+ s) = u.
Proof.
  induction u as [|a u IH]; [by destruct s |].
  rewrite string_app_cons. simpl. now rewrite IH.
Qed.

Lemma backtrack_found {R} (try : nat -> option R) (min n : nat) (r : R) :
  Regex.backtrack try min n = Some r ->
  exists k, min <= k <= n /\ try k = Some r.
Proof.
  induction n as [|n IH]; simpl.
  - destruct (Nat.ltb_spec 0%nat min); [discriminate |].
    destruct (try 0%nat) eqn:E; [| discriminate].
    intros [= ->]. exists 0%nat. split; [lia | exact E].
  - destruct (Nat.ltb_spec (S n) min); [discriminate |].
    destruct (try (S n)) eqn:E.
    + intros [= ->]. exists (S n). split; [lia | exact E].
    + intros H'. destruct (IH H') as (k & Hk & Hr).
      exists k. split; [lia | exact Hr].
Qed.

Lemma backtrack_finds {R} (try : nat -> option R) (min n k : nat) :
  min <= k <= n -> is_Some (try k) -> is_Some (Regex.backtrack try min n).
Proof.
  intros Hk Hr. induction n as [|n IH]; simpl.
  - assert (k = 0%nat) as -> by lia.
    destruct (Nat.ltb_spec 0%nat min); [lia |]. destruct Hr as [r ->]. eauto.
  - destruct (Nat.ltb_spec (S n) min); [lia |].
    destruct (try (S n)) eqn:E; [eauto |].
    destruct (decide (k = S n)) as [-> | Hne].
    + rewrite E in Hr. by destruct Hr.
    + apply IH. lia.
Qed.

(** The matcher finds only matches of the pattern. *)
Lemma exec_sound (p : list Regex.atom) (s : string) (groups : list string) :
  Regex.exec p s = Some groups -> Matches p s groups.
Proof.
  revert s groups. induction p as [|[cls min capture | c] p IH];
    intros s groups; simpl.
  - destruct s; [intros [= <-]; constructor | discriminate].
  - intros H. apply backtrack_found in H as (k & Hk & H).
    destruct (Regex.exec p (JS.drop k s)) as [g|] eqn:E; [| discriminate].
    injection H as <-. rewrite <- (take_drop k s) at 1.
    destruct (take_within_span cls k s) as [H1 H2]; [lia |].
    apply Matches_rep; [exact H1 | lia | by apply IH].
  - destruct s as [|a s]; [discriminate |].
    destruct (Ascii.eqb_spec a c) as [-> |]; [| discriminate].
    intros H. constructor. by apply IH.
Qed.

(** The matcher finds a match whenever the pattern has one. *)
Lemma exec_complete (p : list Regex.atom) (s : string) (groups : list string) :
  Matches p s groups -> is_Some (Regex.exec p s).
Proof.
  induction 1 as [| c p s g _ IH | cls min capture p u s g Hu Hmin _ IH];
    simpl.
  - eauto.
  - now rewrite Ascii.eqb_refl.
  - apply (backtrack_finds _ _ _ (String.length u)).
    + split; [exact Hmin | by apply span_of_run].
    + rewrite drop_run. destruct IH as [g' ->]. eauto.
Qed.

(** A line matches when it is white space, a key of one or more characters
    other than a colon, a colon, white space, a value of one or more
    characters other than line terminators, and white space. *)
Lemma line_match_Some (line g1 g2 : string) :
  line_match line = Some (g1, g2) ->
  exists w1 w2 w3,
    line = w1 +:+ g1 +:+ ":" +:+ w2 +:+ g2 +:+ w3
    /\ every JS.is_space w1 = true
    /\ every (fun a => negb (Ascii.eqb a ":")) g1 = true /\ g1 <> ""
    /\ every JS.is_space w2 = true
    /\ every (fun a => negb (JS.is_line_terminator a)) g2 = true /\ g2 <> ""
    /\ every JS.is_space w3 = true.
Proof.
  unfold line_match.
  destruct (Regex.exec key_value_pattern line) as [groups|] eqn:E;
    [| discriminate].
  apply exec_sound in E. unfold key_value_pattern in E.
  inversion E as [| | ? ? ? ? w1 s1 gs1 Hw1 _ E1]; subst; clear E.
  inversion E1 as [| | ? ? ? ? k s2 gs2 Hk Hk1 E2]; subst; clear E1.
  inversion E2 as [| ? ? s3 gs3 E3 |]; subst; clear E2.
  inversion E3 as [| | ? ? ? ? w2 s4 gs4 Hw2 _ E4]; subst; clear E3.
  inversion E4 as [| | ? ? ? ? v s5 gs5 Hv Hv1 E5]; subst; clear E4.
  inversion E5 as [| | ? ? ? ? w3 s6 gs6 Hw3 _ E6]; subst; clear E5.
  inversion E6; subst; clear E6.
  intros [= -> ->]. exists w1, w2, w3.
  rewrite string_app_nil_r.
  repeat split; try assumption.
  - intros ->. simpl in Hk1. lia.
  - intros ->. simpl in Hv1. lia.
Qed.

Lemma line_match_None (line : string) :
  line_match line = None ->
  forall w1 g1 w2 g2 w3,
    every JS.is_space w1 = true ->
    every (fun a => negb (Ascii.eqb a ":")) g1 = true -> g1 <> "" ->
    every JS.is_space w2 = true ->
    every (fun a => negb (JS.is_line_terminator a)) g2 = true -> g2 <> "" ->
    every JS.is_space w3 = true ->
    line <> w1 +:+ g1 +:+ ":" +:+ w2 +:+ g2 +:+ w3.
Proof.
  intros Hnone w1 g1 w2 g2 w3 Hw1 Hg1 Hne1 Hw2 Hg2 Hne2 Hw3 ->.
  assert (HM : Matches key_value_pattern
                 (w1 +:+ g1 +:+ ":" +:+ w2 +:+ g2 +:+ w3) [g1; g2]).
  { unfold key_value_pattern.
    apply (Matches_rep _ _ false); [exact Hw1 | simpl; lia |].
    apply (Matches_rep _ _ true); [exact Hg1 | destruct g1; simpl; [done | lia] |].
    apply Matches_chr.
    apply (Matches_rep _ _ false); [exact Hw2 | simpl; lia |].
    apply (Matches_rep _ _ true); [exact Hg2 | destruct g2; simpl; [done | lia] |].
    rewrite <- (string_app_nil_r w3) at 1.
    apply (Matches_rep _ _ false); [exact Hw3 | simpl; lia |].
    constructor. }
  apply exec_complete in HM as [groups HM].
  pose proof (exec_sound _ _ _ HM) as E.
  unfold line_match in Hnone. rewrite HM in Hnone.
  unfold key_value_pattern in E.
  inversion E as [| | ? ? ? ? ? ? ? _ _ E1]; subst; clear E.
  inversion E1 as [| | ? ? ? ? ? ? ? _ _ E2]; subst; clear E1.
  inversion E2 as [| ? ? ? ? E3 |]; subst; clear E2.
  inversion E3 as [| | ? ? ? ? ? ? ? _ _ E4]; subst; clear E3.
  inversion E4 as [| | ? ? ? ? ? ? ? _ _ E5]; subst; clear E4.
  inversion E5 as [| | ? ? ? ? ? ? ? _ _ E6]; subst; clear E5.
  inversion E6; subst. discriminate Hnone.
Qed.

(** ** The calculator *)

Lemma resolve_inputs_returns (data : QKDNormalizedV1) :
  exists r tr, resolve_inputs data [] = (Try.Normal r, tr).
Proof.
  unfold resolve_inputs, Try.bind, Try.addTrace, Try.ret.
  destruct (security data ≫= epsilon) as [e|];
    [destruct (JS.truthy e && is_null (security data ≫= epsilon_sec)
               && is_null (security data ≫= epsilon_cor)) |];
    destruct (dv_specific data ≫= ec_efficiency_beta); simpl; eauto.
Qed.

(** The resolved inputs in terms of the fields of the record. *)
Lemma resolve_inputs_fields (data : QKDNormalizedV1) (sec : Security) :
  security data = Some sec ->
  exists r tr,
    resolve_inputs data [] = (Try.Normal r, tr)
    /\ in_S_bps r = sifted_key_rate_bps sec
    /\ in_Q r = qber_total sec
    /\ in_N r = sifted_bits sec
    /\ in_beta r = default 1.1 (dv_specific data ≫= ec_efficiency_beta)
    /\ (in_eps_sec r, in_eps_cor r)
       = match epsilon sec, epsilon_sec sec, epsilon_cor sec with
         | Some e, None, None =>
             if JS.truthy e then (Some e, Some e) else (None, None)
         | _, eps_sec, eps_cor => (eps_sec, eps_cor)
         end.
Proof.
  intros Hsec. unfold resolve_inputs, Try.bind, Try.addTrace, Try.ret.
  rewrite Hsec. simpl.
  destruct (epsilon sec) as [e|], (epsilon_sec sec) as [a|],
    (epsilon_cor sec) as [b|], (dv_specific data ≫= ec_efficiency_beta);
    simpl; try destruct (JS.truthy e); simpl;
    do 2 eexists; repeat split.
Qed.

(** The inputs are resolved when the three numbers are in the record and
    the two epsilons are there, or only [epsilon], which is then truthy. *)
Lemma resolve_inputs_resolved (data : QKDNormalizedV1) (sec : Security)
    (S_bps Q_raw N eps_sec eps_cor : float) :
  security data = Some sec ->
  sifted_key_rate_bps sec = Some S_bps ->
  qber_total sec = Some Q_raw ->
  sifted_bits sec = Some N ->
  (epsilon_sec sec = Some eps_sec /\ epsilon_cor sec = Some eps_cor)
  \/ (epsilon_sec sec = None /\ epsilon_cor sec = None
      /\ epsilon sec = Some eps_sec /\ JS.truthy eps_sec = true
      /\ eps_cor = eps_sec) ->
  exists tr,
    resolve_inputs data []
    = (Try.Normal
         (all_resolved S_bps Q_raw
            (default 1.1 (dv_specific data ≫= ec_efficiency_beta))
            N eps_sec eps_cor),
       tr).
Proof.
  intros Hsec HS HQ HN Heps.
  destruct (resolve_inputs_fields data sec Hsec)
    as (r & tr & Hres & H1 & H2 & H3 & H4 & H5).
  exists tr. rewrite Hres. do 2 f_equal.
  destruct r as [s q b n es ec]. unfold all_resolved. simpl in *.
  rewrite HS in H1. rewrite HQ in H2. rewrite HN in H3. subst s q n b.
  destruct Heps as [[Hes Hec] | (Hes & Hec & He & Ht & ->)];
    rewrite Hes, Hec in H5.
  - destruct (epsilon sec); injection H5 as -> ->; reflexivity.
  - rewrite He, Ht in H5. injection H5 as -> ->. reflexivity.
Qed.

Lemma missing_fields_nil (r : Resolved) :
  missing_fields r = [] ->
  exists S_bps Q_raw N eps_sec eps_cor,
    r = all_resolved S_bps Q_raw (in_beta r) N eps_sec eps_cor.
Proof.
  destruct r as [[s|] [q|] b [n|] [es|] [ec|]]; unfold missing_fields; simpl;
    try discriminate.
  intros _. by exists s, q, n, es, ec.
Qed.

Lemma missing_fields_all_resolved S_bps Q_raw beta N eps_sec eps_cor :
  missing_fields (all_resolved S_bps Q_raw beta N eps_sec eps_cor) = [].
Proof. reflexivity. Qed.

Section CalculatorProperties.

Variable log2 : float -> float.
Variable toString : float -> string.

Lemma calculate_resolved data r tr :
  resolve_inputs data [] = (Try.Normal r, tr) ->
  calculateSecureSKR_deterministic log2 toString data =
    match compute log2 toString r tr with
    | (Try.Normal result, _) => result
    | (Try.Throw message, trace) => failure message trace
    end.
Proof.
  intros H. unfold calculateSecureSKR_deterministic, try_block, Try.bind.
  now rewrite H.
Qed.

Lemma compute_missing r tr :
  missing_fields r <> [] ->
  compute log2 toString r tr
  = (Try.Throw (missing_message (missing_fields r)), tr).
Proof.
  intros H. unfold compute.
  destruct (missing_fields r) as [|x l]; [congruence | reflexivity].
Qed.

Lemma compute_threshold S_bps Q_raw beta N eps_sec eps_cor tr :
  (0.11 <? Q_raw) = true ->
  compute log2 toString (all_resolved S_bps Q_raw beta N eps_sec eps_cor) tr
  = (Try.Throw (threshold_message toString Q_raw),
     tr ++ input_entries S_bps Q_raw beta N eps_sec eps_cor).
Proof.
  intros H. unfold compute, Try.bind, Try.addTrace, Try.throw. simpl.
  rewrite H. unfold input_entries. now rewrite <- !app_assoc.
Qed.

Lemma compute_passes S_bps Q_raw beta N eps_sec eps_cor tr :
  (0.11 <? Q_raw) = false ->
  compute log2 toString (all_resolved S_bps Q_raw beta N eps_sec eps_cor) tr
  = let trace :=
      tr ++ input_entries S_bps Q_raw beta N eps_sec eps_cor
         ++ computation_entries log2 S_bps Q_raw beta N eps_sec eps_cor in
    (Try.Normal (success log2 S_bps Q_raw beta N eps_sec eps_cor trace),
     trace).
Proof.
  intros H.
  unfold compute, Try.bind, Try.addTrace, Try.throw, Try.get_trace, Try.ret.
  simpl. rewrite H.
  unfold success, input_entries, computation_entries, max0, spec_rate,
    spec_penalty.
  now rewrite <- !app_assoc.
Qed.

(** What [compute] does, by cases: it completes, it fails at the threshold
    or it fails on missing fields. *)
Lemma compute_cases r tr :
  (exists S_bps Q_raw N eps_sec eps_cor,
      r = all_resolved S_bps Q_raw (in_beta r) N eps_sec eps_cor
      /\ (0.11 <? Q_raw) = false
      /\ compute log2 toString r tr
         = let trace :=
             tr ++ input_entries S_bps Q_raw (in_beta r) N eps_sec eps_cor
                ++ computation_entries log2 S_bps Q_raw (in_beta r) N
                     eps_sec eps_cor in
           (Try.Normal
              (success log2 S_bps Q_raw (in_beta r) N eps_sec eps_cor trace),
            trace))
  \/ (exists S_bps Q_raw N eps_sec eps_cor,
      r = all_resolved S_bps Q_raw (in_beta r) N eps_sec eps_cor
      /\ (0.11 <? Q_raw) = true
      /\ compute log2 toString r tr
         = (Try.Throw (threshold_message toString Q_raw),
            tr ++ input_entries S_bps Q_raw (in_beta r) N eps_sec eps_cor))
  \/ (missing_fields r <> []
      /\ compute log2 toString r tr
         = (Try.Throw (missing_message (missing_fields r)), tr)).
Proof.
  destruct (missing_fields r) as [|x l] eqn:Hm.
  - destruct (missing_fields_nil r Hm) as (s & q & n & es & ec & Hr).
    destruct (0.11 <? q) eqn:Hq.
    + right; left. exists s, q, n, es, ec. split; [exact Hr |].
      split; [exact Hq |]. rewrite Hr at 1. now apply compute_threshold.
    + left. exists s, q, n, es, ec. split; [exact Hr |].
      split; [exact Hq |]. rewrite Hr at 1. now apply compute_passes.
  - right; right. rewrite <- Hm. split; [congruence |].
    apply compute_missing. congruence.
Qed.

Lemma h2_outside (q : float) :
  (q <=? 0) = true \/ (1 <=? q) = true -> h2 log2 q = 0.
Proof. unfold h2. intros [-> | ->]; [reflexivity | now rewrite orb_true_r]. Qed.

Lemma h2_inside (q : float) :
  (q <=? 0) = false -> (1 <=? q) = false ->
  h2 log2 q = (- q) * log2 q - (1 - q) * log2 (1 - q).
Proof. unfold h2. now intros -> ->. Qed.

(** The function [h2] of the source is the binary entropy of the
    specification at every number that is not a NaN. *)
Lemma h2_binary_entropy (q : float) :
  Prim2SF q <> S754_nan -> h2 log2 q = binary_entropy log2 q.
Proof.
  intros Hq. unfold h2, binary_entropy.
  rewrite (leb_negb_ltb q 0 Hq), (leb_negb_ltb 1 q) by (done || discriminate).
  now destruct (0 <? q), (q <? 1).
Qed.

(** C1.  When the record has [S_bps], [Q] and [N], its two epsilons are
    resolved, directly or from the single [epsilon], [beta] is the one of
    the record or the default 1.1, and [Q <= 0.11], the calculation
    reports no error, its secure rate is
    [max(0, ((N*(1 - h2(Q)) - N*h2(Q)*beta - Delta) / N) * S_bps)] where
    [h2] is the binary entropy ([0] at [q <= 0] or [q >= 1]) and
    [Delta = 2*log2(1/eps_cor) + 4*log2(1/(2*eps_sec))*sqrt(N*Q*(1-Q))],
    and the intermediates are exactly [h2(Q)], the leakage
    [N*h2(Q)*beta] and [Delta]. *)
Theorem secure_rate_formula data sec S_bps Q N eps_sec eps_cor :
  security data = Some sec ->
  sifted_key_rate_bps sec = Some S_bps ->
  qber_total sec = Some Q ->
  sifted_bits sec = Some N ->
  (epsilon_sec sec = Some eps_sec /\ epsilon_cor sec = Some eps_cor)
  \/ (epsilon_sec sec = None /\ epsilon_cor sec = None
      /\ epsilon sec = Some eps_sec /\ JS.truthy eps_sec = true
      /\ eps_cor = eps_sec) ->
  (Q <=? 0.11) = true ->
  let beta := default 1.1 (dv_specific data ≫= ec_efficiency_beta) in
  let h2_Q := binary_entropy log2 Q in
  let Delta :=
    2 * log2 (1 / eps_cor)
    + 4 * log2 (1 / (2 * eps_sec)) * PrimFloat.sqrt (N * Q * (1 - Q)) in
  let result := calculateSecureSKR_deterministic log2 toString data in
  error result = None
  /\ R_secure_bps result
     = Some (max0 (((N * (1 - h2_Q) - N * h2_Q * beta - Delta) / N) * S_bps))
  /\ intermediates result
     = <["h2_Q" := h2_Q]>
         (<["leakage_ec_bits" := N * h2_Q * beta]>
            (<["finite_penalty_bits" := Delta]> ∅)).
Proof.
  intros Hsec HS HQ HN Heps Hle beta h2_Q Delta result.
  subst beta h2_Q Delta result.
  destruct (resolve_inputs_resolved _ _ _ _ _ _ _ Hsec HS HQ HN Heps)
    as [tr Hres].
  rewrite (calculate_resolved _ _ _ Hres).
  rewrite compute_passes by now apply leb_not_ltb.
  cbn [error R_secure_bps intermediates success].
  unfold spec_rate, spec_penalty.
  rewrite (h2_binary_entropy Q (leb_not_nan _ _ Hle)).
  repeat split.
Qed.

(** C2.  With the required inputs resolved, [Q] being the [qber_total] of
    the record, the calculation fails with the security-limit error, whose
    message cites the number [Q], exactly when [Q > 0.11]; the failure has
    no rate and keeps the trace collected so far, and [Q = 0.11] passes on
    to the entropy computation. *)
Theorem security_threshold data tr S_bps Q_raw beta N eps_sec eps_cor :
  resolve_inputs data []
  = (Try.Normal (all_resolved S_bps Q_raw beta N eps_sec eps_cor), tr) ->
  let result := calculateSecureSKR_deterministic log2 toString data in
  let message :=
    "QBER (" +:+ toString Q_raw
    +:+ ") exceeds theoretical security limit for BB84 (0.11). "
    +:+ "Secure key rate is zero." in
  security data ≫= qber_total = Some Q_raw
  /\ ((0.11 <? Q_raw) = true <-> error result = Some message)
  /\ ((0.11 <? Q_raw) = true ->
      R_secure_bps result = None
      /\ inputs result = ∅
      /\ intermediates result = ∅
      /\ trace result
         = tr ++ input_entries S_bps Q_raw beta N eps_sec eps_cor)
  /\ ((0.11 <? Q_raw) = false ->
      error result = None
      /\ trace result
         = tr ++ input_entries S_bps Q_raw beta N eps_sec eps_cor
              ++ computation_entries log2 S_bps Q_raw beta N eps_sec eps_cor)
  /\ (Q_raw = 0.11 -> error result = None).
Proof.
  intros Hres result message. subst result message.
  split.
  { revert Hres. unfold resolve_inputs, Try.bind, Try.addTrace, Try.ret.
    destruct (security data ≫= epsilon) as [e|];
      [destruct (JS.truthy e && is_null (security data ≫= epsilon_sec)
                 && is_null (security data ≫= epsilon_cor)) |];
      destruct (dv_specific data ≫= ec_efficiency_beta); simpl;
      unfold all_resolved; intros [= ? ? ? ? ? ?]; assumption. }
  rewrite (calculate_resolved _ _ _ Hres).
  destruct (0.11 <? Q_raw) eqn:HQ.
  - rewrite compute_threshold by exact HQ.
    unfold threshold_message.
    repeat split; try discriminate; try reflexivity.
    intros ->. discriminate HQ.
  - rewrite compute_passes by exact HQ.
    repeat split; try discriminate; try reflexivity.
Qed.

Lemma missing_message_names (name : string) (l : list string) :
  name ∈ l -> Substring name (missing_message l).
Proof.
  intros H. unfold missing_message.
  apply Substring_app_l, Substring_app_r, Substring_join, H.
Qed.

(** C3.  When one or more of the five required inputs remain unresolved,
    the calculation has no rate, an empty inputs mapping, the trace
    recorded so far, and an input-validation error whose message names
    every unresolved field; for a record whose security section is empty
    the message lists all five. *)
Theorem missing_fields_reported data r tr :
  resolve_inputs data [] = (Try.Normal r, tr) ->
  in_S_bps r = None \/ in_Q r = None \/ in_N r = None
  \/ in_eps_sec r = None \/ in_eps_cor r = None ->
  let result := calculateSecureSKR_deterministic log2 toString data in
  R_secure_bps result = None
  /\ inputs result = ∅
  /\ trace result = tr
  /\ (exists message,
        error result = Some message
        /\ (exists names,
              message
              = "Input validation failed: Missing required fields: "
                +:+ JS.join ", " names +:+ ".")
        /\ (in_S_bps r = None ->
            Substring "security.sifted_key_rate_bps" message)
        /\ (in_Q r = None -> Substring "security.qber_total" message)
        /\ (in_N r = None -> Substring "security.sifted_bits" message)
        /\ (in_eps_sec r = None ->
            Substring "security.epsilon_sec (or epsilon)" message)
        /\ (in_eps_cor r = None ->
            Substring "security.epsilon_cor (or epsilon)" message))
  /\ (security data = Some empty_security ->
      error result
      = Some
          ("Input validation failed: Missing required fields: "
           +:+ "security.sifted_key_rate_bps, security.qber_total, "
           +:+ "security.sifted_bits, security.epsilon_sec (or epsilon), "
           +:+ "security.epsilon_cor (or epsilon).")).
Proof.
  intros Hres Hnone result. subst result.
  rewrite (calculate_resolved _ _ _ Hres).
  assert (Hm : missing_fields r <> []).
  { destruct r as [[s|] [q|] b [n|] [es|] [ec|]]; simpl in Hnone;
      unfold missing_fields; simpl; try discriminate.
    destruct Hnone as [H|[H|[H|[H|H]]]]; discriminate H. }
  rewrite (compute_missing _ tr Hm). simpl.
  split; [reflexivity |]. split; [reflexivity |]. split; [reflexivity |].
  split.
  - exists (missing_message (missing_fields r)).
    split; [reflexivity |]. split; [by exists (missing_fields r) |].
    repeat split; intros H; apply missing_message_names;
      unfold missing_fields; rewrite H; cbn [is_null];
      rewrite !elem_of_app, list_elem_of_singleton; auto 10.
  - intros Hsec. revert Hres.
    unfold resolve_inputs, Try.bind, Try.addTrace, Try.ret.
    rewrite Hsec. simpl.
    destruct (dv_specific data ≫= ec_efficiency_beta);
      intros [= <- _]; reflexivity.
Qed.

(** C4, as the code has it.  The calculation returns a result for every
    record: the inputs are always resolved, and then either the
    computation completes, or it stops at the threshold, or it stops on
    missing fields.  These two are the failures that the code detects: such
    a failure has its message in [error], no rate, and the trace recorded
    up to the point of failure.  Nothing else is a failure for the code: a
    computation that completes has no error and a number as its rate,
    whatever the arithmetic gave. *)
Theorem calculation_is_total data :
  let result := calculateSecureSKR_deterministic log2 toString data in
  (exists r tr,
      resolve_inputs data [] = (Try.Normal r, tr)
      /\ ((exists S_bps Q_raw N eps_sec eps_cor,
              r = all_resolved S_bps Q_raw (in_beta r) N eps_sec eps_cor
              /\ (0.11 <? Q_raw) = false
              /\ result
                 = success log2 S_bps Q_raw (in_beta r) N eps_sec eps_cor
                     (tr ++ input_entries S_bps Q_raw (in_beta r) N
                              eps_sec eps_cor
                         ++ computation_entries log2 S_bps Q_raw (in_beta r)
                              N eps_sec eps_cor))
          \/ (exists S_bps Q_raw N eps_sec eps_cor,
                 r = all_resolved S_bps Q_raw (in_beta r) N eps_sec eps_cor
                 /\ (0.11 <? Q_raw) = true
                 /\ result
                    = failure (threshold_message toString Q_raw)
                        (tr ++ input_entries S_bps Q_raw (in_beta r) N
                                 eps_sec eps_cor))
          \/ (missing_fields r <> []
              /\ result
                 = failure (missing_message (missing_fields r)) tr)))
  /\ (forall message,
        error result = Some message ->
        R_secure_bps result = None
        /\ exists entries,
             try_block log2 toString data [] = (Try.Throw message, entries)
             /\ trace result = entries)
  /\ (error result = None <-> is_Some (R_secure_bps result))
  /\ (forall S_bps Q_raw beta N eps_sec eps_cor tr,
        resolve_inputs data []
        = (Try.Normal (all_resolved S_bps Q_raw beta N eps_sec eps_cor), tr) ->
        (0.11 <? Q_raw) = false ->
        error result = None
        /\ R_secure_bps result
           = Some (max0 (spec_rate log2 S_bps Q_raw beta N eps_sec eps_cor))).
Proof.
  intros result. subst result. split; [| split; [| split]].
  - destruct (resolve_inputs_returns data) as (r & tr & Hres).
    exists r, tr. split; [exact Hres |].
    rewrite (calculate_resolved _ _ _ Hres).
    destruct (compute_cases r tr)
      as [(s & q & n & es & ec & Hr & HQ & ->)
         |[(s & q & n & es & ec & Hr & HQ & ->)|(Hm & ->)]].
    + left. by exists s, q, n, es, ec.
    + right; left. by exists s, q, n, es, ec.
    + right; right. by split.
  - intros message. unfold calculateSecureSKR_deterministic.
    destruct (resolve_inputs_returns data) as (r & tr & Hres).
    unfold try_block, Try.bind. rewrite Hres.
    destruct (compute_cases r tr)
      as [(s & q & n & es & ec & Hr & HQ & ->)
         |[(s & q & n & es & ec & Hr & HQ & ->)|(Hm & ->)]]; simpl.
    + discriminate.
    + intros [= <-]. split; [reflexivity | eauto].
    + intros [= <-]. split; [reflexivity | eauto].
  - destruct (resolve_inputs_returns data) as (r & tr & Hres).
    rewrite (calculate_resolved _ _ _ Hres).
    destruct (compute_cases r tr)
      as [(s & q & n & es & ec & Hr & HQ & ->)
         |[(s & q & n & es & ec & Hr & HQ & ->)|(Hm & ->)]]; simpl.
    + split; eauto.
    + split; [discriminate | intros [? [=]]].
    + split; [discriminate | intros [? [=]]].
  - intros S_bps Q_raw beta N eps_sec eps_cor tr Hres HQ.
    rewrite (calculate_resolved _ _ _ Hres).
    rewrite compute_passes by exact HQ. by split.
Qed.

(** C10.  Every failure, the threshold failure included, returns an empty
    inputs mapping and an empty intermediates mapping; when the inputs
    were resolved, their values are in the trace, which ends with the six
    input entries. *)
Theorem failure_reports_no_inputs data :
  let result := calculateSecureSKR_deterministic log2 toString data in
  is_Some (error result) ->
  inputs result = ∅
  /\ intermediates result = ∅
  /\ R_secure_bps result = None
  /\ (forall S_bps Q_raw beta N eps_sec eps_cor tr,
        resolve_inputs data []
        = (Try.Normal (all_resolved S_bps Q_raw beta N eps_sec eps_cor), tr) ->
        (0.11 <? Q_raw) = true
        /\ trace result
           = tr ++ input_entries S_bps Q_raw beta N eps_sec eps_cor).
Proof.
  intros result. subst result.
  destruct (resolve_inputs_returns data) as (r & tr & Hres).
  rewrite (calculate_resolved _ _ _ Hres).
  destruct (compute_cases r tr)
    as [(s & q & n & es & ec & Hr & HQ & ->)
       |[(s & q & n & es & ec & Hr & HQ & ->)|(Hm & ->)]]; simpl.
  - intros [m Hm]. discriminate Hm.
  - intros _. split; [reflexivity |]. split; [reflexivity |].
    split; [reflexivity |].
    intros S_bps Q_raw beta N eps_sec eps_cor tr' H.
    rewrite Hres in H. injection H as -> <-. simpl in Hr.
    inversion Hr; subst. by split.
  - intros _. split; [reflexivity |]. split; [reflexivity |].
    split; [reflexivity |].
    intros S_bps Q_raw beta N eps_sec eps_cor tr' H.
    rewrite Hres in H. injection H as -> _. now destruct Hm.
Qed.

(** The trace of a result extends the trace of the resolution by entries
    of the validation and computation steps. *)
Lemma calculate_trace data r tr :
  resolve_inputs data [] = (Try.Normal r, tr) ->
  exists entries,
    trace (calculateSecureSKR_deterministic log2 toString data)
    = tr ++ entries
    /\ Forall (fun t => step t <> "Epsilon") entries.
Proof.
  intros Hres. rewrite (calculate_resolved _ _ _ Hres).
  destruct (compute_cases r tr)
    as [(s & q & n & es & ec & Hr & HQ & ->)
       |[(s & q & n & es & ec & Hr & HQ & ->)|(Hm & ->)]]; simpl.
  - eexists. split; [reflexivity |].
    unfold computation_entries. repeat constructor; discriminate.
  - eexists. split; [reflexivity |]. repeat constructor; discriminate.
  - exists []. split; [now rewrite app_nil_r | constructor].
Qed.

(** C5, as the code has it.  When [epsilon_sec] and [epsilon_cor] are both
    absent and [epsilon] is present and truthy (neither zero nor NaN),
    both are set to it and the first trace entry notes the substitution;
    when one of the pair is present, both keep their values and no entry
    notes a substitution. *)
Theorem single_epsilon_substitution :
  (forall data sec e,
      security data = Some sec ->
      epsilon_sec sec = None -> epsilon_cor sec = None ->
      epsilon sec = Some e -> JS.truthy e = true ->
      exists r tr rest,
        resolve_inputs data [] = (Try.Normal r, epsilon_entry e :: tr)
        /\ in_eps_sec r = Some e /\ in_eps_cor r = Some e
        /\ trace (calculateSecureSKR_deterministic log2 toString data)
           = epsilon_entry e :: rest)
  /\ (forall data sec,
        security data = Some sec ->
        is_Some (epsilon_sec sec) \/ is_Some (epsilon_cor sec) ->
        exists r tr,
          resolve_inputs data [] = (Try.Normal r, tr)
          /\ in_eps_sec r = epsilon_sec sec
          /\ in_eps_cor r = epsilon_cor sec
          /\ Forall (fun t => step t <> "Epsilon")
               (trace (calculateSecureSKR_deterministic log2 toString data))).
Proof.
  split.
  - intros data sec e Hsec Hes Hec He Ht.
    assert (exists r tr,
               resolve_inputs data [] = (Try.Normal r, epsilon_entry e :: tr)
               /\ in_eps_sec r = Some e /\ in_eps_cor r = Some e)
      as (r & tr & Hres & H1 & H2).
    { unfold resolve_inputs, Try.bind, Try.addTrace, Try.ret.
      rewrite Hsec. simpl. rewrite Hes, Hec, He, Ht. simpl.
      destruct (dv_specific data ≫= ec_efficiency_beta); simpl; eauto. }
    destruct (calculate_trace _ _ _ Hres) as (entries & Htr & _).
    exists r, tr, (tr ++ entries). by rewrite Htr.
  - intros data sec Hsec Hsome.
    assert (exists r tr,
               resolve_inputs data [] = (Try.Normal r, tr)
               /\ in_eps_sec r = epsilon_sec sec
               /\ in_eps_cor r = epsilon_cor sec
               /\ Forall (fun t => step t <> "Epsilon") tr)
      as (r & tr & Hres & H1 & H2 & Hno).
    { unfold resolve_inputs, Try.bind, Try.addTrace, Try.ret.
      rewrite Hsec. simpl.
      assert (Hnull : is_null (epsilon_sec sec) && is_null (epsilon_cor sec)
                      = false).
      { destruct Hsome as [[x ->] | [x ->]]; simpl;
          [reflexivity | apply andb_false_r]. }
      destruct (epsilon sec) as [e|];
        [rewrite <- andb_assoc, Hnull, andb_false_r |];
        destruct (dv_specific data ≫= ec_efficiency_beta); simpl;
        do 2 eexists; (split; [reflexivity |]);
        repeat split; repeat constructor; discriminate. }
    destruct (calculate_trace _ _ _ Hres) as (entries & Htr & Hent).
    exists r, tr. repeat split; try assumption.
    rewrite Htr. apply Forall_app. by split.
Qed.

End CalculatorProperties.

(** ** The reconciliation of the provenance arrays *)

(** The merged array: the pre-parsed entries, then the model's entries whose
    field is not a field of a pre-parsed entry. *)
Lemma reconcileProvenance_provenance pre llm :
  _provenance (reconcileProvenance pre llm)
  = Some (provenance pre
          ++ filter (fun p => field p ∉ field <$> provenance pre)
               (default [] (_provenance llm))).
Proof.
  unfold reconcileProvenance. simpl. do 2 f_equal.
  apply list_filter_iff. intros p. now rewrite elem_of_list_to_set.
Qed.

(** C8, as the code has it.  For every pair of lists, the merged
    provenance is the high-trust entries in their order followed by the
    low-trust entries, in their order, whose field does not occur among the
    high-trust ones; when neither list repeats a field, no field occurs
    twice in the merged list. *)
Theorem merged_provenance pre llm :
  let merged := default [] (_provenance (reconcileProvenance pre llm)) in
  merged
  = provenance pre
    ++ filter (fun p => field p ∉ field <$> provenance pre)
         (default [] (_provenance llm))
  /\ (NoDup (field <$> provenance pre) ->
      NoDup (field <$> default [] (_provenance llm)) ->
      NoDup (field <$> merged)).
Proof.
  intros merged. subst merged.
  rewrite reconcileProvenance_provenance. simpl.
  split; [reflexivity |]. intros Hpre Hllm.
  rewrite fmap_app. apply NoDup_app. split; [exact Hpre |]. split.
  - intros x Hx (p & -> & Hp)%list_elem_of_fmap.
    apply list_elem_of_filter in Hp as [Hnot _]. contradiction.
  - eapply sublist_NoDup; [exact Hllm |].
    apply fmap_sublist, sublist_filter.
Qed.

(** ** The pre-parser *)

(** Every path of [keyMap] has two keys: a section and a leaf. *)
Lemma keyMap_paths (key path : string) :
  keyMap !! key = Some path ->
  JS.is_empty path = false
  /\ exists a b, JS.split_ne "." path = (a, [b]).
Proof.
  intros H. unfold keyMap in H. apply elem_of_list_to_map_2 in H.
  repeat (apply elem_of_cons in H as [H | H];
          [injection H as -> ->; split; [reflexivity | by eexists _, _] |]).
  by apply elem_of_nil in H.
Qed.

Lemma assign_path_two (m : gmap string jsval) (a b : string) (v : jsval) :
  objects_only m ->
  assign_path m a [b] v
  = Returned (<[a := JObj (<[b := v]> (section_of m a))]> m).
Proof.
  intros Hm. unfold section_of. simpl.
  destruct (m !! a) as [x|] eqn:Ha; [|reflexivity].
  destruct (Hm _ _ Ha) as [o ->]. reflexivity.
Qed.

Lemma objects_only_insert (m o : gmap string jsval) (a : string) :
  objects_only m -> objects_only (<[a := JObj o]> m).
Proof.
  intros Hm k v. rewrite lookup_insert. case_decide.
  - intros [= <-]. by exists o.
  - apply Hm.
Qed.

Lemma read_path_assigned (m : gmap string jsval) (a b : string) (v : jsval) :
  read_path (<[a := JObj (<[b := v]> (section_of m a))]> m) a [b] = Some v.
Proof. simpl. now rewrite lookup_insert_eq, lookup_insert_eq. Qed.

Lemma read_path_kept (m : gmap string jsval) (a b a' b' : string) (v : jsval) :
  is_Some (read_path m a' [b']) ->
  is_Some (read_path (<[a := JObj (<[b := v]> (section_of m a))]> m) a' [b']).
Proof.
  simpl. unfold section_of. rewrite (lookup_insert m a a').
  case_decide as Ha; [subst a' | trivial].
  destruct (m !! a) as [[x|s|o]|]; try (by intros [? [=]]).
  rewrite lookup_insert. case_decide; eauto.
Qed.

Lemma recognized_false (line : string) :
  recognized line = false <-> line_entry line = None.
Proof.
  unfold recognized, line_entry.
  destruct (line_match line) as [[g1 g2]|]; [|done].
  destruct (keyMap !! normalize_key g1) as [path|].
  - rewrite bool_decide_eq_false. split; [intros []; eauto | discriminate].
  - rewrite bool_decide_eq_false. split; [done | intros _ [? [=]]].
Qed.

Section PreParserProperties.

Variable Number : string -> float.

(** One line: a recognized line sets its path and adds its entry, any
    other line is kept. *)
Lemma visit_line (st : scan) (line : string) :
  objects_only (sections (preParsedData st)) ->
  hits_prototype line = false ->
  match line_entry line with
  | Some e =>
      exists a b v,
        JS.split_ne "." (field e) = (a, [b])
        /\ visit Number st line
           = Returned
               {| preParsedData :=
                    {| sections :=
                         <[a := JObj (<[b := v]>
                                        (section_of (sections (preParsedData st)) a))]>
                           (sections (preParsedData st));
                       provenance := provenance (preParsedData st) ++ [e] |};
                  remainingLines := remainingLines st |}
  | None =>
      visit Number st line
      = Returned {| preParsedData := preParsedData st;
                    remainingLines := remainingLines st ++ [line] |}
  end.
Proof.
  intros Hm Hp. unfold line_entry, visit, hits_prototype, keyMap_get in *.
  destruct (line_match line) as [[g1 g2]|]; [|reflexivity].
  destruct (keyMap !! normalize_key g1) as [path|] eqn:Hk.
  - destruct (keyMap_paths _ _ Hk) as (Hne & a & b & Hsplit).
    exists a, b, (coerce Number (JS.trim g2)). split; [exact Hsplit |].
    rewrite Hne. unfold setNestedValue. rewrite Hsplit.
    now rewrite assign_path_two.
  - destruct (inherited (normalize_key g1)); [discriminate | reflexivity].
Qed.

(** The whole loop. *)
Lemma forEach_lines (lines : list string) (st : scan) :
  objects_only (sections (preParsedData st)) ->
  Forall (fun l => hits_prototype l = false) lines ->
  exists st',
    forEach Number lines st = Returned st'
    /\ objects_only (sections (preParsedData st'))
    /\ remainingLines st'
       = remainingLines st ++ filter (fun l => recognized l = false) lines
    /\ provenance (preParsedData st')
       = provenance (preParsedData st) ++ omap line_entry lines
    /\ (forall a b,
          is_Some (read_path (sections (preParsedData st)) a [b]) ->
          is_Some (read_path (sections (preParsedData st')) a [b]))
    /\ (forall e a b,
          e ∈ omap line_entry lines ->
          JS.split_ne "." (field e) = (a, [b]) ->
          is_Some (read_path (sections (preParsedData st')) a [b])).
Proof.
  revert st. induction lines as [|line lines IH]; intros st Hm Hall.
  - exists st. simpl. rewrite !app_nil_r.
    repeat split; auto. intros e a b H. by apply elem_of_nil in H.
  - apply Forall_cons in Hall as [Hline Hall].
    pose proof (visit_line st line Hm Hline) as Hv.
    pose proof (recognized_false line) as Hrec.
    simpl. rewrite filter_cons.
    destruct (line_entry line) as [e|] eqn:He.
    + destruct Hv as (a & b & v & Hsplit & ->).
      match goal with
      | |- context [forEach Number lines ?s] =>
          destruct (IH s) as (st' & -> & Hm' & Hrem & Hprov & Hkept & Hset);
          [by apply objects_only_insert | exact Hall |]
      end.
      cbn [preParsedData sections provenance remainingLines] in *. exists st'. split; [reflexivity |]. split; [exact Hm' |].
      split.
      { rewrite Hrem. case_decide as Hd; [|reflexivity].
        apply Hrec in Hd. discriminate Hd. }
      split; [by rewrite Hprov, <- app_assoc |].
      split.
      { intros a' b' H. apply Hkept. by apply read_path_kept. }
      intros e' a' b' [-> | H]%elem_of_cons Hs.
      * rewrite Hsplit in Hs. injection Hs as <- <-.
        apply Hkept. rewrite read_path_assigned. eauto.
      * by eapply Hset.
    + rewrite Hv. clear Hv.
      destruct (IH {| preParsedData := preParsedData st;
                      remainingLines := remainingLines st ++ [line] |}
                  Hm Hall)
        as (st' & -> & Hm' & Hrem & Hprov & Hkept & Hset).
      cbn [preParsedData sections provenance remainingLines] in *. exists st'. split; [reflexivity |]. split; [exact Hm' |].
      split.
      { rewrite Hrem, <- app_assoc. case_decide as Hd; [reflexivity |].
        destruct Hd. by apply Hrec. }
      repeat split; assumption.
Qed.

Lemma objects_only_empty : objects_only ∅.
Proof. intros k v H. by rewrite lookup_empty in H. Qed.

(** The pre-parser on an input that the guard lets through and none of
    whose lines has an inherited key. *)
Lemma preParse_unguarded (logs : string) :
  looks_structured logs = false ->
  Forall (fun l => hits_prototype l = false) (JS.split "010" logs) ->
  exists pre,
    preParseWithRegex Number logs
    = Returned
        (pre,
         JS.trim
           (JS.join JS.LF
              (filter (fun l => recognized l = false) (JS.split "010" logs))))
    /\ provenance pre = omap line_entry (JS.split "010" logs)
    /\ (forall e a b,
          e ∈ provenance pre ->
          JS.split_ne "." (field e) = (a, [b]) ->
          is_Some (read_path (sections pre) a [b])).
Proof.
  intros Hg Hall. unfold preParseWithRegex. rewrite Hg.
  destruct (forEach_lines (JS.split "010" logs)
              {| preParsedData := empty_parse; remainingLines := [] |}
              objects_only_empty Hall)
    as (st' & -> & _ & Hrem & Hprov & _ & Hset).
  cbn [preParsedData sections provenance remainingLines empty_parse] in *.
  exists (preParsedData st'). rewrite Hrem, Hprov. simpl.
  split; [reflexivity |]. split; [reflexivity |]. exact Hset.
Qed.

(** C6, as the code has it.  In an input that the guard lets through (and
    none of whose lines has an inherited key), a line that matches
    [key: value] with a key of the table has its path set in the partial
    record and a provenance entry with confidence 1.0 whose snippet is
    the line without its leading and trailing white space. *)
Theorem recognized_line_extracted logs line g1 g2 path :
  looks_structured logs = false ->
  Forall (fun l => hits_prototype l = false) (JS.split "010" logs) ->
  line ∈ JS.split "010" logs ->
  line_match line = Some (g1, g2) ->
  keyMap !! normalize_key g1 = Some path ->
  exists pre remaining,
    preParseWithRegex Number logs = Returned (pre, remaining)
    /\ is_Some (get_path (sections pre) path)
    /\ {| field := path; span := None; snippet := JS.trim line;
          confidence_score := Some 1; top_3_alternatives := None |}
       ∈ provenance pre.
Proof.
  intros Hg Hall Hin Hmatch Hkey.
  destruct (preParse_unguarded logs Hg Hall) as (pre & Hpre & Hprov & Hset).
  assert (He : entry path line ∈ provenance pre).
  { rewrite Hprov. apply list_elem_of_omap. exists line.
    split; [exact Hin |]. unfold line_entry. now rewrite Hmatch, Hkey. }
  eexists pre, _. split; [exact Hpre |]. split; [| exact He].
  destruct (keyMap_paths _ _ Hkey) as (_ & a & b & Hsplit).
  unfold get_path. rewrite Hsplit. by apply (Hset _ _ _ He).
Qed.

(** C7.  An input whose trimmed text is enclosed in braces or in square
    brackets, or whose first line contains a comma, is returned whole as
    the remaining text, with an empty partial record. *)
Theorem structured_input_skipped logs :
  (JS.startsWith "{" (JS.trim logs) = true
   /\ JS.endsWith "}" (JS.trim logs) = true)
  \/ (JS.startsWith "[" (JS.trim logs) = true
      /\ JS.endsWith "]" (JS.trim logs) = true)
  \/ (exists first rest,
         JS.split "010" logs = first :: rest
         /\ JS.includes "," first = true) ->
  preParseWithRegex Number logs
  = Returned ({| sections := ∅; provenance := [] |}, logs).
Proof.
  intros H. unfold preParseWithRegex.
  assert (Hg : looks_structured logs = true); [| now rewrite Hg].
  unfold looks_structured.
  destruct H as [[-> ->] | [[-> ->] | (first & rest & Hs & Hc)]].
  - reflexivity.
  - now rewrite orb_true_r.
  - unfold JS.split in Hs. destruct (JS.split_ne "010" logs) as [h t].
    injection Hs as -> ->. simpl. rewrite Hc. now rewrite orb_true_r.
Qed.

(** C9, as the code has it.  For an input that the guard lets through (and
    none of whose lines has an inherited key), the remaining text is the
    lines that do not match or whose key is not in the table, in their
    order, joined by line feeds, with the white space at the two ends of
    the whole removed. *)
Theorem remaining_text logs :
  looks_structured logs = false ->
  Forall (fun l => hits_prototype l = false) (JS.split "010" logs) ->
  exists pre,
    preParseWithRegex Number logs
    = Returned
        (pre,
         JS.trim
           (JS.join JS.LF
              (filter (fun l => recognized l = false) (JS.split "010" logs)))).
Proof.
  intros Hg Hall.
  destruct (preParse_unguarded logs Hg Hall) as (pre & Hpre & _).
  by exists pre.
Qed.

End PreParserProperties.

(** * The theorems at concrete inputs *)

(** ** The calculator *)

Lemma secure_rate_formula_witness :
  (security toshiba ≫= epsilon_sec) = None
  /\ (security toshiba ≫= epsilon_cor) = None
  /\ (security toshiba ≫= epsilon) = Some 1e-9
  /\ JS.truthy 1e-9 = true
  /\ (0.026 <=? 0.11) = true
  /\ let beta := default 1.1 (dv_specific toshiba ≫= ec_efficiency_beta) in
     let h2_Q := binary_entropy Sample.log2 0.026 in
     let Delta :=
       2 * Sample.log2 (1 / 1e-9)
       + 4 * Sample.log2 (1 / (2 * 1e-9))
         * PrimFloat.sqrt (1500000 * 0.026 * (1 - 0.026)) in
     let result :=
       calculateSecureSKR_deterministic Sample.log2 Sample.toString toshiba in
     error result = None
     /\ R_secure_bps result
        = Some (max0 (((1500000 * (1 - h2_Q) - 1500000 * h2_Q * beta - Delta)
                       / 1500000) * 180000))
     /\ intermediates result
        = <["h2_Q" := h2_Q]>
            (<["leakage_ec_bits" := 1500000 * h2_Q * beta]>
               (<["finite_penalty_bits" := Delta]> ∅)).
Proof.
  do 5 (split; [reflexivity |]).
  exact (secure_rate_formula Sample.log2 Sample.toString toshiba
           (security_with (Some 1e-9) None None (Some 0.026) (Some 1500000)
              (Some 180000))
           180000 0.026 1500000 1e-9 1e-9
           eq_refl eq_refl eq_refl eq_refl
           (or_intror
              (conj eq_refl (conj eq_refl (conj eq_refl
                 (conj eq_refl eq_refl)))))
           eq_refl).
Defined.

(** With the sample runtime the rate of this record is about 111549 bits
    per second, and [h2(0.026)] about 0.1739. *)
Example toshiba_rate :
  R_secure_bps
    (calculateSecureSKR_deterministic Sample.log2 Sample.toString toshiba)
  = Some 111548.74964036296
  /\ h2 Sample.log2 0.026 = 0.17391711692221742.
Proof. split; vm_compute; reflexivity. Qed.

Lemma security_threshold_witness :
  resolve_inputs high_qber []
  = (Try.Normal (all_resolved 50000 0.18 1.1 1600000 1e-9 1e-9),
     [epsilon_entry 1e-9; beta_entry])
  /\ let result :=
       calculateSecureSKR_deterministic Sample.log2 Sample.toString high_qber in
     let message :=
       "QBER (" +:+ Sample.toString 0.18
       +:+ ") exceeds theoretical security limit for BB84 (0.11). "
       +:+ "Secure key rate is zero." in
     security high_qber ≫= qber_total = Some 0.18
     /\ ((0.11 <? 0.18) = true <-> error result = Some message)
     /\ ((0.11 <? 0.18) = true ->
         R_secure_bps result = None
         /\ inputs result = ∅
         /\ intermediates result = ∅
         /\ trace result
            = [epsilon_entry 1e-9; beta_entry]
              ++ input_entries 50000 0.18 1.1 1600000 1e-9 1e-9)
     /\ ((0.11 <? 0.18) = false ->
         error result = None
         /\ trace result
            = [epsilon_entry 1e-9; beta_entry]
              ++ input_entries 50000 0.18 1.1 1600000 1e-9 1e-9
              ++ computation_entries Sample.log2 50000 0.18 1.1 1600000 1e-9
                   1e-9)
     /\ (0.18 = 0.11 -> error result = None).
Proof.
  split; [reflexivity |].
  exact (security_threshold Sample.log2 Sample.toString high_qber
           [epsilon_entry 1e-9; beta_entry] 50000 0.18 1.1 1600000 1e-9 1e-9
           eq_refl).
Defined.

(** The message of the failure, and the two sides of the threshold. *)
Example high_qber_message :
  error (calculateSecureSKR_deterministic Sample.log2 Sample.toString high_qber)
  = Some ("QBER (0.18) exceeds theoretical security limit for BB84 (0.11). "
          +:+ "Secure key rate is zero.").
Proof. vm_compute. reflexivity. Qed.

Example threshold_boundary :
  error (calculateSecureSKR_deterministic Sample.log2 Sample.toString at_threshold)
  = None
  /\ error (calculateSecureSKR_deterministic Sample.log2 Sample.toString
              above_threshold)
     = Some ("QBER (0.110001) exceeds theoretical security limit for BB84 (0.11). "
             +:+ "Secure key rate is zero.").
Proof. split; vm_compute; reflexivity. Qed.

(** An arithmetic failure is not reported.  With [epsilon_sec = -1] the
    argument of the second [Math.log2] is negative, and with
    [qber_total = -0.1] that of the [Math.sqrt] is: the penalty is a NaN,
    and the result has no error and a rate that is a NaN, not [null]. *)
Lemma arithmetic_failure_not_reported :
  Sample.log2 (1 / (2 * -1)) = nan
  /\ (let result :=
        calculateSecureSKR_deterministic Sample.log2 Sample.toString
          negative_epsilon in
      error result = None
      /\ R_secure_bps result = Some nan
      /\ intermediates result !! "finite_penalty_bits" = Some nan)
  /\ PrimFloat.sqrt (1500000 * -0.1 * (1 - -0.1)) = nan
  /\ (let result :=
        calculateSecureSKR_deterministic Sample.log2 Sample.toString
          negative_qber in
      error result = None
      /\ R_secure_bps result = Some nan
      /\ intermediates result !! "finite_penalty_bits" = Some nan)
  /\ Some nan <> (None : option float).
Proof. vm_compute. repeat split. discriminate. Qed.

Lemma missing_fields_reported_witness :
  let result :=
    calculateSecureSKR_deterministic Sample.log2 Sample.toString no_security in
  R_secure_bps result = None
  /\ inputs result = ∅
  /\ trace result = [beta_entry]
  /\ error result
     = Some
         ("Input validation failed: Missing required fields: "
          +:+ "security.sifted_key_rate_bps, security.qber_total, "
          +:+ "security.sifted_bits, security.epsilon_sec (or epsilon), "
          +:+ "security.epsilon_cor (or epsilon).").
Proof.
  pose proof
    (missing_fields_reported Sample.log2 Sample.toString no_security
       {| in_S_bps := None; in_Q := None; in_beta := 1.1; in_N := None;
          in_eps_sec := None; in_eps_cor := None |}
       [beta_entry] eq_refl (or_introl eq_refl))
    as (HR & Hin & Htr & _ & Herr).
  exact (conj HR (conj Hin (conj Htr (Herr eq_refl)))).
Defined.

Lemma failure_reports_no_inputs_witness :
  let result :=
    calculateSecureSKR_deterministic Sample.log2 Sample.toString high_qber in
  is_Some (error result)
  /\ inputs result = ∅
  /\ intermediates result = ∅
  /\ R_secure_bps result = None
  /\ trace result
     = [epsilon_entry 1e-9; beta_entry]
       ++ input_entries 50000 0.18 1.1 1600000 1e-9 1e-9.
Proof.
  assert (Herr : is_Some
                   (error (calculateSecureSKR_deterministic Sample.log2
                             Sample.toString high_qber)))
    by (eexists; reflexivity).
  pose proof
    (failure_reports_no_inputs Sample.log2 Sample.toString high_qber Herr)
    as (Hin & Hint & HR & Htr).
  exact (conj Herr (conj Hin (conj Hint (conj HR
           (proj2 (Htr 50000 0.18 1.1 1600000 1e-9 1e-9
                     [epsilon_entry 1e-9; beta_entry] eq_refl)))))).
Defined.

Lemma single_epsilon_substitution_witness :
  (exists r tr rest,
      resolve_inputs toshiba [] = (Try.Normal r, epsilon_entry 1e-9 :: tr)
      /\ in_eps_sec r = Some 1e-9 /\ in_eps_cor r = Some 1e-9
      /\ trace (calculateSecureSKR_deterministic Sample.log2 Sample.toString
                  toshiba)
         = epsilon_entry 1e-9 :: rest)
  /\ (exists r tr,
         resolve_inputs two_epsilons [] = (Try.Normal r, tr)
         /\ in_eps_sec r = Some 1e-9
         /\ in_eps_cor r = Some 1e-10
         /\ Forall (fun t => step t <> "Epsilon")
              (trace (calculateSecureSKR_deterministic Sample.log2
                        Sample.toString two_epsilons))).
Proof.
  split.
  - exact (proj1 (single_epsilon_substitution Sample.log2 Sample.toString)
             toshiba _ 1e-9 eq_refl eq_refl eq_refl eq_refl eq_refl).
  - exact (proj2 (single_epsilon_substitution Sample.log2 Sample.toString)
             two_epsilons _ eq_refl (or_introl (ex_intro _ _ eq_refl))).
Defined.

(** An epsilon of zero is present and is not substituted: with
    [epsilon_sec] and [epsilon_cor] absent, the calculation fails on the two
    missing epsilons, and no trace entry notes a substitution. *)
Lemma zero_epsilon_not_substituted :
  (security zero_epsilon ≫= epsilon) = Some 0
  /\ (security zero_epsilon ≫= epsilon_sec) = None
  /\ (security zero_epsilon ≫= epsilon_cor) = None
  /\ calculateSecureSKR_deterministic Sample.log2 Sample.toString zero_epsilon
     = failure
         ("Input validation failed: Missing required fields: "
          +:+ "security.epsilon_sec (or epsilon), "
          +:+ "security.epsilon_cor (or epsilon).")
         [beta_entry].
Proof. repeat split. Qed.

(** ** The pre-parser *)

Lemma no_inherited_key_in_table_text :
  Forall (fun l => hits_prototype l = false) (JS.split "010" table_text).
Proof. repeat constructor. Qed.

Lemma recognized_line_extracted_witness :
  line_match "  vendor: CDOT" = Some ("vendor", "CDOT")
  /\ keyMap !! normalize_key "vendor" = Some "meta.vendor"
  /\ exists pre remaining,
       preParseWithRegex Sample.Number table_text = Returned (pre, remaining)
       /\ is_Some (get_path (sections pre) "meta.vendor")
       /\ {| field := "meta.vendor"; span := None;
             snippet := JS.trim "  vendor: CDOT";
             confidence_score := Some 1; top_3_alternatives := None |}
          ∈ provenance pre.
Proof.
  split; [reflexivity |]. split; [reflexivity |].
  apply (recognized_line_extracted Sample.Number table_text
           "  vendor: CDOT" "vendor" "CDOT" "meta.vendor").
  - reflexivity.
  - exact no_inherited_key_in_table_text.
  - apply list_elem_of_further, list_elem_of_here.
  - reflexivity.
  - reflexivity.
Defined.

(** The pre-parser on the four lines of [table_text]: two fields, their two
    entries, and the two other lines as the remaining text. *)
Example table_text_parsed :
  preParseWithRegex Sample.Number table_text
  = Returned
      ({| sections :=
            <["meta" := JObj (<["vendor" := JStr "CDOT"]> ∅)]>
              (<["security" := JObj (<["sifted_bits" := JNum 1050000]> ∅)]> ∅);
          provenance :=
            [ entry "meta.vendor" "  vendor: CDOT";
              entry "security.sifted_bits" "sifted_bits: 1_050_000" ] |},
       "note" +:+ JS.LF +:+ "foo: bar").
Proof. vm_compute. reflexivity. Qed.

(** The snippet of an indented line is the line without its indentation,
    and a recognized line whose input has a comma in its first line is not
    extracted at all. *)
Lemma snippet_is_trimmed :
  preParseWithRegex Sample.Number "  vendor: CDOT"
  = Returned
      ({| sections := <["meta" := JObj (<["vendor" := JStr "CDOT"]> ∅)]> ∅;
          provenance :=
            [ {| field := "meta.vendor"; span := None;
                 snippet := "vendor: CDOT"; confidence_score := Some 1;
                 top_3_alternatives := None |} ] |},
       "")
  /\ "vendor: CDOT" <> "  vendor: CDOT"
  /\ line_match "vendor: a,b" = Some ("vendor", "a,b")
  /\ keyMap !! normalize_key "vendor" = Some "meta.vendor"
  /\ preParseWithRegex Sample.Number "vendor: a,b"
     = Returned ({| sections := ∅; provenance := [] |}, "vendor: a,b").
Proof.
  split; [vm_compute; reflexivity |]. split; [discriminate |].
  repeat split.
Qed.

Lemma structured_input_skipped_witness :
  (exists first rest,
      JS.split "010" csv_text = first :: rest /\ JS.includes "," first = true)
  /\ preParseWithRegex Sample.Number csv_text
     = Returned ({| sections := ∅; provenance := [] |}, csv_text).
Proof.
  assert (H : exists first rest,
             JS.split "010" csv_text = first :: rest
             /\ JS.includes "," first = true)
    by (exists "a,b,c", ["1,2,3"]; split; reflexivity).
  split; [exact H |].
  exact (structured_input_skipped Sample.Number csv_text
           (or_intror (or_intror H))).
Defined.

Example json_input_skipped :
  preParseWithRegex Sample.Number " { a: 1 } "
  = Returned ({| sections := ∅; provenance := [] |}, " { a: 1 } ").
Proof. reflexivity. Qed.

Lemma remaining_text_witness :
  looks_structured table_text = false
  /\ exists pre,
       preParseWithRegex Sample.Number table_text
       = Returned
           (pre,
            JS.trim
              (JS.join JS.LF
                 (filter (fun l => recognized l = false)
                    (JS.split "010" table_text)))).
Proof.
  split; [reflexivity |].
  exact (remaining_text Sample.Number table_text eq_refl
           no_inherited_key_in_table_text).
Defined.

(** The remaining text is not the unrecognized lines verbatim: the white
    space at its two ends is removed. *)
Lemma remaining_text_is_trimmed :
  looks_structured " x" = false
  /\ filter (fun l => recognized l = false) (JS.split "010" " x") = [" x"]
  /\ preParseWithRegex Sample.Number " x"
     = Returned ({| sections := ∅; provenance := [] |}, "x")
  /\ "x" <> JS.join JS.LF [" x"].
Proof. repeat split. discriminate. Qed.

(** A line whose key is [constructor] makes the pre-parser throw. *)
Example inherited_key_throws :
  preParseWithRegex Sample.Number "constructor: x" = TypeError.
Proof. reflexivity. Qed.

(** ** The reconciliation of the provenance arrays *)

Lemma merged_provenance_witness :
  let pre :=
    {| sections := ∅; provenance := [entry "meta.vendor" "vendor: CDOT"] |} in
  let llm :=
    llm_record [ llm_entry "meta.vendor" "made by CDOT";
                 llm_entry "meta.model" "a Sahasra unit" ] in
  let merged := default [] (_provenance (reconcileProvenance pre llm)) in
  merged
  = [ entry "meta.vendor" "vendor: CDOT";
      llm_entry "meta.model" "a Sahasra unit" ]
  /\ NoDup (field <$> merged).
Proof.
  intros pre llm.
  assert (Hpre : NoDup (field <$> provenance pre))
    by (apply NoDup_singleton).
  assert (Hllm : NoDup (field <$> default [] (_provenance llm))).
  { apply NoDup_cons. split; [| apply NoDup_singleton].
    intros H%list_elem_of_singleton. discriminate H. }
  pose proof (merged_provenance pre llm) as [Heq Hnodup].
  exact (conj Heq (Hnodup Hpre Hllm)).
Defined.

(** Two lines with the same key give two pre-parsed entries with the same
    field, and both are in the merged list. *)
Lemma merged_provenance_repeats_field :
  match preParseWithRegex Sample.Number two_vendors with
  | Returned (pre, _) =>
      field <$> default [] (_provenance (reconcileProvenance pre (llm_record [])))
  | TypeError => []
  end = ["meta.vendor"; "meta.vendor"]
  /\ ~ NoDup ["meta.vendor"; "meta.vendor"].
Proof.
  split; [vm_compute; reflexivity |].
  intros H. apply NoDup_cons in H as [H _]. apply H, list_elem_of_here.
Qed.

(** * Further properties *)

(** ** The calculator *)

Section CalculatorFurther.

Variable log2 : float -> float.
Variable toString : float -> string.

(** The messages of the two failures are not empty. *)
Lemma missing_message_not_empty (l : list string) :
  JS.is_empty (missing_message l) = false.
Proof. reflexivity. Qed.

Lemma threshold_message_not_empty (q : float) :
  JS.is_empty (threshold_message toString q) = false.
Proof. reflexivity. Qed.

(** X1.  The rate of a result is never negative: a negative rate is replaced by
    zero before it is returned. *)
Theorem rate_never_negative data v :
  R_secure_bps (calculateSecureSKR_deterministic log2 toString data) = Some v ->
  (v <? 0) = false.
Proof.
  destruct (resolve_inputs_returns data) as (r & tr & Hres).
  rewrite (calculate_resolved _ _ _ _ _ Hres).
  destruct (compute_cases log2 toString r tr)
    as [(s & q & n & es & ec & Hr & HQ & ->)
       |[(s & q & n & es & ec & Hr & HQ & ->)|(Hm & ->)]]; simpl.
  - intros [= <-]. apply max0_not_negative.
  - discriminate.
  - discriminate.
Qed.

(** The inputs that [resolve_inputs] leaves, read off the record. *)
Lemma resolve_inputs_reads (data : QKDNormalizedV1) :
  exists r tr,
    resolve_inputs data [] = (Try.Normal r, tr)
    /\ in_S_bps r = security data ≫= sifted_key_rate_bps
    /\ in_Q r = security data ≫= qber_total
    /\ in_N r = security data ≫= sifted_bits
    /\ (in_eps_sec r, in_eps_cor r)
       = match security data ≫= epsilon_sec, security data ≫= epsilon_cor with
         | None, None =>
             match security data ≫= epsilon with
             | Some e => if JS.truthy e then (Some e, Some e) else (None, None)
             | None => (None, None)
             end
         | eps_sec, eps_cor => (eps_sec, eps_cor)
         end.
Proof.
  unfold resolve_inputs, Try.bind, Try.addTrace, Try.ret.
  destruct (security data ≫= epsilon) as [e|],
    (security data ≫= epsilon_sec) as [a|],
    (security data ≫= epsilon_cor) as [b|],
    (dv_specific data ≫= ec_efficiency_beta);
    simpl; try destruct (JS.truthy e); simpl;
    do 2 eexists; repeat split.
Qed.

(** X2.  A result without error reports in its inputs mapping the numbers of
    the record: the three required ones as they are, and as the two
    epsilons those of the record, or its single epsilon when both are
    absent. *)
Theorem success_reports_inputs data :
  let result := calculateSecureSKR_deterministic log2 toString data in
  error result = None ->
  inputs result !! "S_bps" = security data ≫= sifted_key_rate_bps
  /\ inputs result !! "Q" = security data ≫= qber_total
  /\ inputs result !! "N" = security data ≫= sifted_bits
  /\ (inputs result !! "eps_sec", inputs result !! "eps_cor")
     = match security data ≫= epsilon_sec, security data ≫= epsilon_cor with
       | None, None => (security data ≫= epsilon, security data ≫= epsilon)
       | eps_sec, eps_cor => (eps_sec, eps_cor)
       end
  /\ is_Some (inputs result !! "eps_sec")
  /\ is_Some (inputs result !! "eps_cor").
Proof.
  intros result. subst result.
  destruct (resolve_inputs_reads data)
    as (r & tr & Hres & HS & HQ & HN & Heps).
  rewrite (calculate_resolved _ _ _ _ _ Hres).
  destruct (compute_cases log2 toString r tr)
    as [(s & q & n & es & ec & Hr & _ & ->)
       |[(s & q & n & es & ec & Hr & _ & ->)|(Hm & ->)]]; simpl;
    try discriminate.
  intros _. rewrite Hr in HS, HQ, HN, Heps. simpl in HS, HQ, HN, Heps.
  rewrite <- HS, <- HQ, <- HN.
  assert (H1 : (<["S_bps" := s]> (<["Q" := q]> (<["beta" := in_beta r]>
                 (<["N" := n]> (<["eps_sec" := es]>
                    (<["eps_cor" := ec]> (∅ : gmap string float)))))))
               !! "eps_sec" = Some es).
  { rewrite !lookup_insert_ne by discriminate. apply lookup_insert_eq. }
  assert (H2 : (<["S_bps" := s]> (<["Q" := q]> (<["beta" := in_beta r]>
                 (<["N" := n]> (<["eps_sec" := es]>
                    (<["eps_cor" := ec]> (∅ : gmap string float)))))))
               !! "eps_cor" = Some ec).
  { rewrite !lookup_insert_ne by discriminate. apply lookup_insert_eq. }
  rewrite H1, H2.
  split; [apply lookup_insert_eq |].
  split; [rewrite lookup_insert_ne by discriminate; apply lookup_insert_eq |].
  split; [rewrite !lookup_insert_ne by discriminate; apply lookup_insert_eq |].
  split; [| split; eauto].
  destruct (security data ≫= epsilon_sec) as [a|],
    (security data ≫= epsilon_cor) as [b|]; try exact Heps.
  destruct (security data ≫= epsilon) as [e|]; [| discriminate Heps].
  destruct (JS.truthy e); [exact Heps | discriminate Heps].
Qed.

(** X3.  The default of [beta]: the entry that notes it is in the trace exactly
    when the record gives no [ec_efficiency_beta], and a result without
    error reports the given [beta], or 1.1, among its inputs. *)
Theorem beta_default data :
  let result := calculateSecureSKR_deterministic log2 toString data in
  (beta_entry ∈ trace result
   <-> dv_specific data ≫= ec_efficiency_beta = None)
  /\ (error result = None ->
      inputs result !! "beta"
      = Some (default 1.1 (dv_specific data ≫= ec_efficiency_beta))).
Proof.
  intros result. subst result.
  assert (Hres : exists r tr,
             resolve_inputs data [] = (Try.Normal r, tr)
             /\ in_beta r = default 1.1 (dv_specific data ≫= ec_efficiency_beta)
             /\ (beta_entry ∈ tr
                 <-> dv_specific data ≫= ec_efficiency_beta = None)).
  { unfold resolve_inputs, Try.bind, Try.addTrace, Try.ret.
    destruct (security data ≫= epsilon) as [e|];
      [destruct (JS.truthy e && is_null (security data ≫= epsilon_sec)
                 && is_null (security data ≫= epsilon_cor)) |];
      destruct (dv_specific data ≫= ec_efficiency_beta) as [b|]; simpl;
      do 2 eexists; (split; [reflexivity |]); (split; [reflexivity |]);
      split; try discriminate; try reflexivity; intros H;
      repeat (apply elem_of_cons in H as [H | H]; [discriminate H |]);
      try (by apply elem_of_nil in H);
      unfold beta_entry; set_solver. }
  destruct Hres as (r & tr & Hres & Hb & Htr).
  rewrite (calculate_resolved _ _ _ _ _ Hres).
  destruct (compute_cases log2 toString r tr)
    as [(s & q & n & es & ec & Hr & HQ & ->)
       |[(s & q & n & es & ec & Hr & HQ & ->)|(Hm & ->)]]; simpl.
  - split.
    + rewrite <- Htr, elem_of_app. split; [| by left].
      intros [H | H]; [exact H |].
      unfold input_entries, computation_entries in H.
      repeat (apply elem_of_cons in H as [H | H]; [discriminate H |]).
      by apply elem_of_nil in H.
    + intros _. rewrite <- Hb.
      rewrite lookup_insert_ne, lookup_insert_ne by discriminate.
      apply lookup_insert_eq.
  - split; [| discriminate].
    rewrite <- Htr, elem_of_app. split; [| by left].
    intros [H | H]; [exact H |]. unfold input_entries in H.
    repeat (apply elem_of_cons in H as [H | H]; [discriminate H |]).
    by apply elem_of_nil in H.
  - split; [exact Htr | discriminate].
Qed.

(** X4.  The calculator reads the six numbers of the security section and
    [ec_efficiency_beta] and nothing else: two records that agree on them
    have the same result, whatever their protocol, vendor or notes. *)
Theorem calculator_reads_only_its_inputs data1 data2 :
  security data1 ≫= sifted_key_rate_bps = security data2 ≫= sifted_key_rate_bps ->
  security data1 ≫= qber_total = security data2 ≫= qber_total ->
  security data1 ≫= sifted_bits = security data2 ≫= sifted_bits ->
  security data1 ≫= epsilon_sec = security data2 ≫= epsilon_sec ->
  security data1 ≫= epsilon_cor = security data2 ≫= epsilon_cor ->
  security data1 ≫= epsilon = security data2 ≫= epsilon ->
  dv_specific data1 ≫= ec_efficiency_beta
  = dv_specific data2 ≫= ec_efficiency_beta ->
  calculateSecureSKR_deterministic log2 toString data1
  = calculateSecureSKR_deterministic log2 toString data2.
Proof.
  intros HS HQ HN Hes Hec He Hb.
  unfold calculateSecureSKR_deterministic, try_block, Try.bind.
  assert (Hres : resolve_inputs data1 [] = resolve_inputs data2 [])
    by (unfold resolve_inputs; now rewrite HS, HQ, HN, Hes, Hec, He, Hb).
  now rewrite Hres.
Qed.

(** X5.  A lone epsilon is not completed from [epsilon]: when exactly one of
    [epsilon_sec] and [epsilon_cor] is present the calculation fails, and
    its message names the absent one, whether [epsilon] is present or
    not. *)
Theorem lone_epsilon_not_completed data sec :
  security data = Some sec ->
  (is_Some (epsilon_sec sec) /\ epsilon_cor sec = None)
  \/ (epsilon_sec sec = None /\ is_Some (epsilon_cor sec)) ->
  let result := calculateSecureSKR_deterministic log2 toString data in
  R_secure_bps result = None
  /\ exists message,
       error result = Some message
       /\ (epsilon_cor sec = None ->
           Substring "security.epsilon_cor (or epsilon)" message)
       /\ (epsilon_sec sec = None ->
           Substring "security.epsilon_sec (or epsilon)" message).
Proof.
  intros Hsec Hlone result. subst result.
  destruct (resolve_inputs_fields data sec Hsec)
    as (r & tr & Hres & _ & _ & _ & _ & Heps).
  assert (Hr : in_eps_sec r = epsilon_sec sec /\ in_eps_cor r = epsilon_cor sec).
  { destruct Hlone as [[[a Ha] Hb] | [Ha [b Hb]]]; rewrite Ha, Hb in *;
      destruct (epsilon sec); by injection Heps as -> ->. }
  destruct Hr as [Hes Hec].
  assert (Hcor : epsilon_cor sec = None ->
                 "security.epsilon_cor (or epsilon)" ∈ missing_fields r).
  { intros H. unfold missing_fields. rewrite Hec, H. cbn [is_null].
    rewrite !elem_of_app, list_elem_of_singleton. auto 10. }
  assert (Hsecr : epsilon_sec sec = None ->
                  "security.epsilon_sec (or epsilon)" ∈ missing_fields r).
  { intros H. unfold missing_fields. rewrite Hes, H. cbn [is_null].
    rewrite !elem_of_app, list_elem_of_singleton. auto 10. }
  assert (Hm : missing_fields r <> []).
  { intros E. rewrite E in Hcor, Hsecr.
    destruct Hlone as [[_ Hb] | [Ha _]];
      [apply Hcor in Hb; by apply elem_of_nil in Hb
      |apply Hsecr in Ha; by apply elem_of_nil in Ha]. }
  rewrite (calculate_resolved _ _ _ _ _ Hres).
  rewrite (compute_missing _ _ _ tr Hm). simpl.
  split; [reflexivity |]. eexists. split; [reflexivity |].
  split; intros H; apply missing_message_names; auto.
Qed.

(** X6.  A record with no security section at all is answered like one whose
    section is empty: no rate, and the five names in the message. *)
Theorem absent_section_reported data :
  security data = None ->
  let result := calculateSecureSKR_deterministic log2 toString data in
  R_secure_bps result = None
  /\ inputs result = ∅
  /\ error result
     = Some
         ("Input validation failed: Missing required fields: "
          +:+ "security.sifted_key_rate_bps, security.qber_total, "
          +:+ "security.sifted_bits, security.epsilon_sec (or epsilon), "
          +:+ "security.epsilon_cor (or epsilon).")
  /\ Forall (fun t => t = beta_entry) (trace result).
Proof.
  intros Hsec result. subst result.
  unfold calculateSecureSKR_deterministic, try_block, resolve_inputs,
    Try.bind, Try.addTrace, Try.ret.
  rewrite Hsec. simpl.
  destruct (dv_specific data ≫= ec_efficiency_beta); simpl;
    repeat split; repeat constructor.
Qed.

End CalculatorFurther.

(** ** The pre-parser *)





Lemma line_value_entry (Number : string -> float) (line : string) :
  line_entry line
  = (fun pv => entry (fst pv) line) <$> line_value Number line.
Proof.
  unfold line_entry, line_value.
  destruct (line_match line) as [[g1 g2]|]; [|reflexivity].
  now destruct (keyMap !! normalize_key g1).
Qed.

Section PreParserFurther.

Variable Number : string -> float.

(** One line, with the value it assigns. *)
Lemma visit_assigns (st : scan) (line : string) :
  objects_only (sections (preParsedData st)) ->
  hits_prototype line = false ->
  match line_value Number line with
  | Some (path, v) =>
      exists a b,
        JS.split_ne "." path = (a, [b])
        /\ visit Number st line
           = Returned
               {| preParsedData :=
                    {| sections :=
                         <[a := JObj (<[b := v]>
                                        (section_of (sections (preParsedData st)) a))]>
                           (sections (preParsedData st));
                       provenance :=
                         provenance (preParsedData st) ++ [entry path line] |};
                  remainingLines := remainingLines st |}
  | None =>
      visit Number st line
      = Returned {| preParsedData := preParsedData st;
                    remainingLines := remainingLines st ++ [line] |}
  end.
Proof.
  intros Hm Hp. unfold line_value, visit, hits_prototype, keyMap_get in *.
  destruct (line_match line) as [[g1 g2]|]; [|reflexivity].
  destruct (keyMap !! normalize_key g1) as [path|] eqn:Hk.
  - destruct (keyMap_paths _ _ Hk) as (Hne & a & b & Hsplit).
    exists a, b. split; [exact Hsplit |].
    rewrite Hne. unfold setNestedValue. rewrite Hsplit.
    now rewrite assign_path_two.
  - destruct (inherited (normalize_key g1)); [discriminate | reflexivity].
Qed.

(** A line with an inherited key makes the callback throw. *)
Lemma visit_throws (st : scan) (line : string) :
  hits_prototype line = true -> visit Number st line = TypeError.
Proof.
  unfold hits_prototype, visit.
  destruct (line_match line) as [[g1 g2]|]; [| discriminate].
  destruct (keyMap_get (normalize_key g1)); [discriminate | reflexivity | discriminate].
Qed.

Lemma forEach_throws (lines : list string) (st : scan) :
  objects_only (sections (preParsedData st)) ->
  Exists (fun l => hits_prototype l = true) lines ->
  forEach Number lines st = TypeError.
Proof.
  revert st. induction lines as [|line lines IH]; intros st Hm Hex.
  - by apply Exists_nil in Hex.
  - simpl. destruct (hits_prototype line) eqn:Hp.
    + now rewrite visit_throws.
    + apply Exists_cons in Hex as [Hex | Hex]; [congruence |].
      pose proof (visit_assigns st line Hm Hp) as Hv.
      destruct (line_value Number line) as [[path v]|].
      * destruct Hv as (a & b & _ & ->). apply IH; [| exact Hex].
        by apply objects_only_insert.
      * rewrite Hv. by apply IH.
Qed.




(** X7.  An input that the guard lets through makes the pre-parser throw exactly
    when one of its lines matches with the key [constructor] or
    [__proto__]. *)
Theorem throws_on_inherited_key logs :
  looks_structured logs = false ->
  (preParseWithRegex Number logs = TypeError
   <-> Exists (fun l => hits_prototype l = true) (JS.split "010" logs)).
Proof.
  intros Hg. split.
  - intros Hthrow.
    destruct (Forall_Exists_dec (fun l => hits_prototype l = false)
                (fun l => hits_prototype l = true)
                (fun l => match hits_prototype l as b
                                return {b = false} + {b = true} with
                          | true => right eq_refl
                          | false => left eq_refl
                          end)
                (JS.split "010" logs)) as [Hall | Hex]; [| exact Hex].
    destruct (preParse_unguarded Number logs Hg Hall) as (pre & Hpre & _).
    rewrite Hpre in Hthrow. discriminate Hthrow.
  - intros Hex. unfold preParseWithRegex. rewrite Hg.
    rewrite forEach_throws; [reflexivity | apply objects_only_empty | exact Hex].
Qed.

(** X8.  The provenance of the partial record is the entries of the recognized
    lines, one for each and in the order of the input; each has confidence
    1.0 and a path of the table as its field. *)
Theorem provenance_of_recognized_lines logs :
  looks_structured logs = false ->
  Forall (fun l => hits_prototype l = false) (JS.split "010" logs) ->
  exists pre remaining,
    preParseWithRegex Number logs = Returned (pre, remaining)
    /\ provenance pre = omap line_entry (JS.split "010" logs)
    /\ Forall
         (fun e =>
            confidence_score e = Some 1
            /\ exists key, keyMap !! key = Some (field e))
         (provenance pre).
Proof.
  intros Hg Hall.
  destruct (preParse_unguarded Number logs Hg Hall) as (pre & Hpre & Hprov & _).
  eexists pre, _. split; [exact Hpre |]. split; [exact Hprov |].
  rewrite Hprov. apply Forall_forall. intros e He.
  apply list_elem_of_omap in He as (line & _ & He).
  unfold line_entry in He.
  destruct (line_match line) as [[g1 g2]|]; [| discriminate].
  destruct (keyMap !! normalize_key g1) as [path|] eqn:Hk; [| discriminate].
  injection He as <-. split; [reflexivity | by exists (normalize_key g1)].
Qed.





End PreParserFurther.

(** ** A line made of a key of the table and a value *)

Lemma every_app (cls : ascii -> bool) (a b : string) :
  every cls (a +:+ b) = every cls a && every cls b.
Proof.
  induction a as [|x a IH]; [reflexivity |].
  rewrite string_app_cons. simpl. now rewrite IH, andb_assoc.
Qed.

Lemma every_impl (cls1 cls2 : ascii -> bool) (s : string) :
  (forall a, cls1 a = true -> cls2 a = true) ->
  every cls1 s = true -> every cls2 s = true.
Proof.
  intros H. induction s as [|x s IH]; [reflexivity |]. simpl.
  intros [Hx Hs]%andb_true_iff. now rewrite (H _ Hx), IH.
Qed.

Lemma space_is_not_colon (a : ascii) :
  JS.is_space a = true -> negb (Ascii.eqb a ":") = true.
Proof.
  destruct (Ascii.eqb_spec a ":") as [-> |]; [discriminate | reflexivity].
Qed.

(** The text before the first colon of a string is determined. *)
Lemma first_colon (x y r r' : string) :
  every (fun a => negb (Ascii.eqb a ":")) x = true ->
  every (fun a => negb (Ascii.eqb a ":")) y = true ->
  x +:+ ":" +:+ r = y +:+ ":" +:+ r' ->
  x = y /\ r = r'.
Proof.
  revert y. induction x as [|a x IH]; intros [|b y] Hx Hy H.
  - change (String ":" r = String ":" r') in H. injection H as H. by split.
  - change (String ":" r = String b (y +:+ ":" +:+ r')) in H.
    injection H as Hb _. subst b. simpl in Hy. discriminate Hy.
  - change (String a (x +:+ ":" +:+ r) = String ":" r') in H.
    injection H as Ha _. subst a. simpl in Hx. discriminate Hx.
  - rewrite !string_app_cons in H. injection H as Hab H. subst b.
    simpl in Hx, Hy.
    apply andb_true_iff in Hx as [_ Hx]. apply andb_true_iff in Hy as [_ Hy].
    destruct (IH y Hx Hy H) as [-> ->]. by split.
Qed.

Lemma trimStart_spaces (w s : string) :
  every JS.is_space w = true -> JS.trimStart (w +:+ s) = JS.trimStart s.
Proof.
  induction w as [|a w IH]; [reflexivity |]. cbn [every].
  intros [Ha Hw]%andb_true_iff. rewrite string_app_cons. cbn [JS.trimStart].
  rewrite Ha. by apply IH.
Qed.

Lemma trimEnd_of_spaces (w : string) :
  every JS.is_space w = true -> JS.trimEnd w = "".
Proof.
  induction w as [|a w IH]; [reflexivity |]. simpl.
  intros [Ha Hw]%andb_true_iff. now rewrite (IH Hw), Ha.
Qed.

Lemma trimEnd_spaces (s w : string) :
  every JS.is_space w = true -> JS.trimEnd (s +:+ w) = JS.trimEnd s.
Proof.
  intros Hw. induction s as [|a s IH]; [by apply trimEnd_of_spaces |].
  rewrite string_app_cons. simpl. now rewrite IH.
Qed.

Lemma trim_spaces_right (s w : string) :
  every JS.is_space w = true -> JS.trim (s +:+ w) = JS.trim s.
Proof.
  intros Hw. unfold JS.trim. induction s as [|a s IH].
  - change ("" +:+ w) with w.
    replace w with (w +:+ "") by apply string_app_nil_r.
    now rewrite (trimStart_spaces w "" Hw).
  - rewrite string_app_cons. simpl. destruct (JS.is_space a); [exact IH |].
    rewrite <- string_app_cons. by apply trimEnd_spaces.
Qed.

(** White space around a text does not change what [trim] gives. *)
Lemma trim_spaces (w1 s w2 : string) :
  every JS.is_space w1 = true -> every JS.is_space w2 = true ->
  JS.trim (w1 +:+ s +:+ w2) = JS.trim s.
Proof.
  intros H1 H2. unfold JS.trim. rewrite (trimStart_spaces _ _ H1).
  by apply trim_spaces_right.
Qed.

Lemma includes_app (c : ascii) (a b : string) :
  JS.includes c (a +:+ b) = JS.includes c a || JS.includes c b.
Proof.
  induction a as [|x a IH]; [reflexivity |].
  rewrite string_app_cons. simpl. now rewrite IH, orb_assoc.
Qed.

Lemma split_ne_without (c : ascii) (s : string) :
  JS.includes c s = false -> JS.split_ne c s = (s, []).
Proof.
  induction s as [|a s IH]; [reflexivity |]. simpl.
  intros [Ha Hs]%orb_false_iff. now rewrite (IH Hs), Ha.
Qed.

Lemma no_line_feed (v : string) :
  every (fun a => negb (JS.is_line_terminator a)) v = true ->
  JS.includes "010" v = false.
Proof.
  induction v as [|a v IH]; [reflexivity |]. simpl.
  intros [Ha Hv]%andb_true_iff. rewrite (IH Hv), orb_false_r.
  destruct (Ascii.eqb_spec a "010") as [-> |]; [discriminate Ha | reflexivity].
Qed.

(** What the keys of the table have in common: they are in the form the
    normalization gives, without a colon, white space or comma, and they
    do not start with a brace or a bracket. *)
Lemma keyMap_keys (key path : string) :
  keyMap !! key = Some path ->
  normalize_key key = key
  /\ every (fun a => negb (Ascii.eqb a ":")) key = true
  /\ every (fun a => negb (JS.is_space a)) key = true
  /\ JS.includes "," key = false
  /\ JS.includes "010" key = false
  /\ exists a k,
       key = String a k /\ JS.is_space a = false
       /\ Ascii.eqb a "{" = false /\ Ascii.eqb a "[" = false.
Proof.
  intros H. unfold keyMap in H. apply elem_of_list_to_map_2 in H.
  repeat (apply elem_of_cons in H as [H | H];
          [injection H as -> ->; repeat split; by eexists _, _ |]).
  by apply elem_of_nil in H.
Qed.

Lemma no_space_prefix (w g key : string) :
  every JS.is_space w = true ->
  every (fun a => negb (JS.is_space a)) key = true ->
  w +:+ g = key -> w = "".
Proof.
  intros Hw Hkey H. destruct w as [|a w]; [reflexivity |].
  rewrite string_app_cons in H. subst key. simpl in Hw, Hkey.
  apply andb_true_iff in Hw as [Ha _]. rewrite Ha in Hkey. discriminate Hkey.
Qed.

(** The match of the line [key: value]. *)
Lemma canonical_line_match (key path v : string) :
  keyMap !! key = Some path ->
  v <> "" ->
  every (fun a => negb (JS.is_line_terminator a)) v = true ->
  exists g1 g2,
    line_match (key +:+ ": " +:+ v) = Some (g1, g2)
    /\ g1 = key /\ JS.trim g2 = JS.trim v.
Proof.
  intros Hkey Hv Hlt.
  destruct (keyMap_keys _ _ Hkey) as (_ & Hcolon & Hspace & _ & _ & a & k & -> & _).
  set (key := String a k) in *.
  destruct (line_match (key +:+ ": " +:+ v)) as [[g1 g2]|] eqn:Hm.
  - exists g1, g2. split; [reflexivity |].
    destruct (line_match_Some _ _ _ Hm)
      as (w1 & w2 & w3 & Hline & Hw1 & Hg1 & _ & Hw2 & _ & _ & Hw3).
    assert (H1 : every (fun a => negb (Ascii.eqb a ":")) (w1 +:+ g1) = true).
    { rewrite every_app, Hg1, andb_true_r.
      eapply every_impl; [apply space_is_not_colon | exact Hw1]. }
    change (key +:+ ": " +:+ v) with (key +:+ ":" +:+ " " +:+ v) in Hline.
    rewrite <- (string_app_assoc w1 g1) in Hline.
    destruct (first_colon _ _ _ _ Hcolon H1 Hline) as [Hk Hrest].
    assert (w1 = "") as -> by (eapply no_space_prefix; eauto).
    split; [now rewrite Hk |].
    rewrite <- (trim_spaces w2 g2 w3 Hw2 Hw3), <- Hrest.
    unfold JS.trim. now rewrite (trimStart_spaces " " v).
  - exfalso.
    apply (line_match_None _ Hm "" key " " v ""); try reflexivity;
      try assumption; [discriminate |].
    now rewrite string_app_nil_r.
Qed.

(** X12.  White space around the key and around the value does not count:
    a line made of white space, a key without colon, a colon, white space,
    a value without line terminator and white space is matched, and the key
    and the value that the callback goes on with, the first normalized and
    the second trimmed, are those of the key and the value of the line. *)
Theorem line_match_modulo_spaces (w1 k w2 v w3 : string) :
  every JS.is_space w1 = true ->
  every (fun a => negb (Ascii.eqb a ":")) k = true -> k <> "" ->
  every JS.is_space w2 = true ->
  every (fun a => negb (JS.is_line_terminator a)) v = true -> v <> "" ->
  every JS.is_space w3 = true ->
  exists g1 g2,
    line_match (w1 +:+ k +:+ ":" +:+ w2 +:+ v +:+ w3) = Some (g1, g2)
    /\ normalize_key g1 = normalize_key k
    /\ JS.trim g2 = JS.trim v.
Proof.
  intros Hw1 Hk Hk0 Hw2 Hv Hv0 Hw3.
  destruct (line_match (w1 +:+ k +:+ ":" +:+ w2 +:+ v +:+ w3))
    as [[g1 g2]|] eqn:Hm.
  - exists g1, g2. split; [reflexivity |].
    destruct (line_match_Some _ _ _ Hm)
      as (u1 & u2 & u3 & Hline & Hu1 & Hg1 & _ & Hu2 & _ & _ & Hu3).
    assert (Hspaces : forall w g,
               every JS.is_space w = true ->
               every (fun a => negb (Ascii.eqb a ":")) g = true ->
               every (fun a => negb (Ascii.eqb a ":")) (w +:+ g) = true).
    { intros w g Hw Hg. rewrite every_app, Hg, andb_true_r.
      eapply every_impl; [apply space_is_not_colon | exact Hw]. }
    rewrite <- (string_app_assoc w1 k), <- (string_app_assoc u1 g1) in Hline.
    destruct (first_colon _ _ _ _ (Hspaces _ _ Hw1 Hk) (Hspaces _ _ Hu1 Hg1) Hline)
      as [Hkey Hrest].
    split.
    + unfold normalize_key, JS.trim.
      rewrite <- (trimStart_spaces u1 g1 Hu1), <- Hkey.
      now rewrite (trimStart_spaces w1 k Hw1).
    + now rewrite <- (trim_spaces u2 g2 u3 Hu2 Hu3), <- Hrest,
        (trim_spaces w2 v w3 Hw2 Hw3).
  - exfalso. by apply (line_match_None _ Hm w1 k w2 v w3).
Qed.

Section KeyValueLine.

Variable Number : string -> float.

(** X13.  A log of one line [key: value], where the key is one of the keys
    of the table and the value is not empty and holds no line terminator
    and no comma, is extracted completely: the value, coerced, is the only
    field of the only section, the provenance is the one entry of the line,
    and no text remains. *)
Theorem key_value_line_parsed (key path v : string) :
  keyMap !! key = Some path ->
  v <> "" ->
  every (fun a => negb (JS.is_line_terminator a)) v = true ->
  JS.includes "," v = false ->
  exists a b,
    JS.split_ne "." path = (a, [b])
    /\ preParseWithRegex Number (key +:+ ": " +:+ v)
       = Returned
           ({| sections := {[ a := JObj {[ b := coerce Number (JS.trim v) ]} ]};
               provenance := [entry path (key +:+ ": " +:+ v)] |},
            "").
Proof.
  intros Hkey Hv Hlt Hcomma.
  destruct (canonical_line_match _ _ _ Hkey Hv Hlt) as (g1 & g2 & Hm & -> & Hg2).
  destruct (keyMap_keys _ _ Hkey)
    as (Hnorm & _ & _ & Hc & Hlf & x & k & Hk & Hx & Hbrace & Hbracket).
  set (line := key +:+ ": " +:+ v) in *.
  assert (Hline : JS.includes "010" line = false).
  { unfold line. rewrite !includes_app, Hlf, (no_line_feed _ Hlt). reflexivity. }
  assert (Hguard : looks_structured line = false).
  { unfold looks_structured. rewrite (split_ne_without _ _ Hline). cbn [fst].
    assert (JS.includes "," line = false) as ->.
    { unfold line. rewrite !includes_app, Hc, Hcomma. reflexivity. }
    assert (exists r, JS.trim line = String x r) as [r ->].
    { unfold line. rewrite Hk, string_app_cons. unfold JS.trim.
      cbn [JS.trimStart]. rewrite Hx. cbn [JS.trimEnd]. rewrite Hx.
      by eexists. }
    cbn [JS.startsWith]. now rewrite Hbrace, Hbracket. }
  assert (Hproto : hits_prototype line = false).
  { unfold hits_prototype. rewrite Hm, Hnorm. unfold keyMap_get.
    now rewrite Hkey. }
  assert (Hvalue : line_value Number line
                   = Some (path, coerce Number (JS.trim v))).
  { unfold line_value. now rewrite Hm, Hnorm, Hkey, Hg2. }
  pose proof (visit_assigns Number
                {| preParsedData := empty_parse; remainingLines := [] |}
                line) as Hvisit.
  rewrite Hvalue in Hvisit.
  destruct Hvisit as (a & b & Hpath & Hvisit);
    [intros ? ? H; cbn in H; by rewrite lookup_empty in H | exact Hproto |].
  exists a, b. split; [exact Hpath |].
  unfold preParseWithRegex. rewrite Hguard.
  unfold JS.split. rewrite (split_ne_without _ _ Hline).
  cbn [forEach]. rewrite Hvisit. cbn.
  unfold section_of. rewrite lookup_empty. reflexivity.
Qed.

End KeyValueLine.

(** ** The reconciliation of the provenance arrays *)

Lemma filter_none {A} (P : A -> Prop) `{forall x, Decision (P x)} (l : list A) :
  Forall (fun x => ~ P x) l -> filter P l = [].
Proof.
  induction 1 as [|x l Hx _ IH]; [reflexivity |].
  now rewrite filter_cons_False.
Qed.

Lemma filter_all {A} (P : A -> Prop) `{forall x, Decision (P x)} (l : list A) :
  Forall P l -> filter P l = l.
Proof.
  induction 1 as [|x l Hx _ IH]; [reflexivity |].
  now rewrite filter_cons_True, IH.
Qed.

(** X14.  Field by field, the merged provenance holds the entries of the
    pre-parser when it has any for the field, and the entries of the
    language model otherwise; in both cases all of them, in their order. *)
Theorem merged_entries_by_field pre llm (f : string) :
  filter (fun p => field p = f)
    (default [] (_provenance (reconcileProvenance pre llm)))
  = if decide (f ∈ field <$> provenance pre)
    then filter (fun p => field p = f) (provenance pre)
    else filter (fun p => field p = f) (default [] (_provenance llm)).
Proof.
  rewrite reconcileProvenance_provenance. simpl.
  rewrite filter_app, list_filter_filter.
  destruct (decide (f ∈ field <$> provenance pre)) as [Hin | Hout].
  - rewrite (filter_none (fun p => field p = f /\ _)), app_nil_r; [reflexivity |].
    apply Forall_forall. intros p _ [-> Hp]. contradiction.
  - rewrite (filter_none _ (provenance pre)).
    + apply list_filter_iff. intros p. split; [tauto |].
      intros ->. by split.
    + apply Forall_forall. intros p Hp <-. apply Hout.
      apply list_elem_of_fmap. eauto.
Qed.

(** X15.  Reconciling a second time with the same pre-parsed data changes
    nothing: the entries that were put first are the ones that are filtered
    out of the model's side. *)
Theorem reconcile_twice pre llm :
  reconcileProvenance pre (reconcileProvenance pre llm)
  = reconcileProvenance pre llm.
Proof.
  unfold reconcileProvenance. cbn. do 3 f_equal.
  rewrite filter_app, (filter_none _ (provenance pre)).
  - apply filter_all, Forall_forall. intros p Hp.
    by apply list_elem_of_filter in Hp as [Hp _].
  - apply Forall_forall. intros p Hp Hnot. apply Hnot.
    apply elem_of_list_to_set, list_elem_of_fmap. eauto.
Qed.

(** ** The result card and the validation checklist *)

Section ResultCard.

Variables (log2 : float -> float) (toString : float -> string).

(** X16.  A calculation that ended with an error is shown as FAIL with
    that error as its text: the messages of the calculator are not empty,
    so none is replaced by the default text. *)
Theorem failed_calculation_shown data message :
  error (calculateSecureSKR_deterministic log2 toString data) = Some message ->
  SKRResultCard (calculateSecureSKR_deterministic log2 toString data)
  = Fail message.
Proof.
  destruct (resolve_inputs_returns data) as (r & tr & Hres).
  rewrite (calculate_resolved _ _ _ _ _ Hres).
  destruct (compute_cases log2 toString r tr)
    as [(s & q & n & es & ec & Hr & HQ & ->)
       |[(s & q & n & es & ec & Hr & HQ & ->)|(Hm & ->)]]; simpl.
  - discriminate.
  - intros [= <-]. unfold SKRResultCard, hasError. cbn [error failure].
    now rewrite threshold_message_not_empty.
  - intros [= <-]. unfold SKRResultCard, hasError. cbn [error failure].
    now rewrite missing_message_not_empty.
Qed.

(** X17.  A calculation that ended with a rate is shown with that rate,
    unless the rate is zero: then the card is FAIL with the default text. *)
Theorem calculated_rate_shown data v :
  R_secure_bps (calculateSecureSKR_deterministic log2 toString data) = Some v ->
  SKRResultCard (calculateSecureSKR_deterministic log2 toString data)
  = if v <=? 0
    then Fail "Secure Key Rate is zero or could not be computed."
    else Pass v.
Proof.
  destruct (resolve_inputs_returns data) as (r & tr & Hres).
  rewrite (calculate_resolved _ _ _ _ _ Hres).
  destruct (compute_cases log2 toString r tr)
    as [(s & q & n & es & ec & Hr & HQ & ->)
       |[(s & q & n & es & ec & Hr & HQ & ->)|(Hm & ->)]]; simpl.
  - intros [= <-]. unfold SKRResultCard, hasError.
    cbn [error R_secure_bps success orb]. simpl.
    now destruct (_ <=? 0).
  - discriminate.
  - discriminate.
Qed.

End ResultCard.

(** X18.  The checklist lists a prefix of the results, and the results
    that are not listed are counted in the note: on the free plan the first
    five are listed, on the other plans all of them and there is no note. *)
Theorem checklist_lists_or_counts results plan :
  let shown := ValidationChecklist results plan in
  listed shown `prefix_of` results
  /\ (Z.of_nat (length (listed shown)) + default 0 (upgrade_note shown)
      = Z.of_nat (length results))%Z
  /\ (plan <> free -> listed shown = results /\ upgrade_note shown = None)
  /\ (plan = free ->
      listed shown = take 5 results
      /\ (upgrade_note shown = None <-> (length results <= 5)%nat))
  /\ (forall n, upgrade_note shown = Some n -> 0 < n)%Z.
Proof.
  unfold ValidationChecklist. cbn [listed upgrade_note].
  split; [apply prefix_take |].
  assert (Hall : forall n : Z,
             n = Z.of_nat (length results) ->
             take (Z.to_nat n) results = results
             /\ (0 <? Z.of_nat (length results) - n)%Z = false).
  { intros n ->. rewrite Nat2Z.id, firstn_all, Z.sub_diag. by split. }
  destruct plan.
  - change (Z.to_nat 5) with 5%nat. rewrite length_take.
    destruct (Z.ltb_spec 0 (Z.of_nat (length results) - 5));
      cbn [from_option]; unfold id;
      repeat split; try done; try lia.
    intros n [= <-]. assumption.
  - destruct (Hall _ eq_refl) as [-> ->]. cbn [from_option].
    repeat split; try done; lia.
  - destruct (Hall _ eq_refl) as [-> ->]. cbn [from_option].
    repeat split; try done; lia.
Qed.

(** * The further properties at concrete inputs *)

(** ** The calculator *)

Lemma rate_never_negative_witness :
  R_secure_bps
    (calculateSecureSKR_deterministic Sample.log2 Sample.toString toshiba)
  = Some 111548.74964036296
  /\ (111548.74964036296 <? 0) = false.
Proof.
  assert (H : R_secure_bps
                (calculateSecureSKR_deterministic Sample.log2 Sample.toString
                   toshiba)
              = Some 111548.74964036296)
    by (vm_compute; reflexivity).
  exact (conj H (rate_never_negative Sample.log2 Sample.toString toshiba _ H)).
Defined.

Lemma success_reports_inputs_witness :
  let result :=
    calculateSecureSKR_deterministic Sample.log2 Sample.toString toshiba in
  error result = None
  /\ inputs result !! "S_bps" = Some 180000
  /\ inputs result !! "Q" = Some 0.026
  /\ inputs result !! "N" = Some 1500000
  /\ (inputs result !! "eps_sec", inputs result !! "eps_cor")
     = (Some 1e-9, Some 1e-9)
  /\ is_Some (inputs result !! "eps_sec")
  /\ is_Some (inputs result !! "eps_cor").
Proof.
  intros result.
  assert (H : error result = None) by (vm_compute; reflexivity).
  exact (conj H
           (success_reports_inputs Sample.log2 Sample.toString toshiba H)).
Defined.

(** A record with its own [beta] has it among the inputs, and no entry for
    the default in its trace. *)
Example explicit_beta :
  let result :=
    calculateSecureSKR_deterministic Sample.log2 Sample.toString toshiba_beta in
  inputs result !! "beta" = Some 1.2 /\ beta_entry ∉ trace result.
Proof.
  split; [vm_compute; reflexivity |]. intros H.
  vm_compute in H.
  repeat (apply elem_of_cons in H as [H | H]; [discriminate H |]).
  by apply elem_of_nil in H.
Qed.

Lemma calculator_reads_only_its_inputs_witness :
  meta toshiba <> meta toshiba_e91
  /\ notes toshiba <> notes toshiba_e91
  /\ calculateSecureSKR_deterministic Sample.log2 Sample.toString toshiba
     = calculateSecureSKR_deterministic Sample.log2 Sample.toString
         toshiba_e91.
Proof.
  split; [discriminate |]. split; [discriminate |].
  exact (calculator_reads_only_its_inputs Sample.log2 Sample.toString
           toshiba toshiba_e91
           eq_refl eq_refl eq_refl eq_refl eq_refl eq_refl eq_refl).
Defined.

Lemma lone_epsilon_not_completed_witness :
  (security lone_epsilon_sec ≫= epsilon) = Some 1e-9
  /\ (security lone_epsilon_sec ≫= epsilon_sec) = Some 1e-9
  /\ (security lone_epsilon_sec ≫= epsilon_cor) = None
  /\ let result :=
       calculateSecureSKR_deterministic Sample.log2 Sample.toString
         lone_epsilon_sec in
     R_secure_bps result = None
     /\ exists message,
          error result = Some message
          /\ Substring "security.epsilon_cor (or epsilon)" message.
Proof.
  do 3 (split; [reflexivity |]).
  pose proof
    (lone_epsilon_not_completed Sample.log2 Sample.toString lone_epsilon_sec
       _ eq_refl (or_introl (conj (ex_intro _ _ eq_refl) eq_refl)))
    as (HR & message & Herr & Hcor & _).
  exact (conj HR (ex_intro _ message (conj Herr (Hcor eq_refl)))).
Defined.

Lemma absent_section_reported_witness :
  security no_section = None
  /\ let result :=
       calculateSecureSKR_deterministic Sample.log2 Sample.toString no_section in
     R_secure_bps result = None
     /\ inputs result = ∅
     /\ error result
        = Some
            ("Input validation failed: Missing required fields: "
             +:+ "security.sifted_key_rate_bps, security.qber_total, "
             +:+ "security.sifted_bits, security.epsilon_sec (or epsilon), "
             +:+ "security.epsilon_cor (or epsilon).")
     /\ Forall (fun t => t = beta_entry) (trace result).
Proof.
  exact (conj eq_refl
           (absent_section_reported Sample.log2 Sample.toString no_section
              eq_refl)).
Defined.

(** ** The pre-parser *)


Lemma throws_on_inherited_key_witness :
  looks_structured "constructor: x" = false
  /\ (preParseWithRegex Sample.Number "constructor: x" = TypeError
      <-> Exists (fun l => hits_prototype l = true)
            (JS.split "010" "constructor: x")).
Proof.
  exact (conj eq_refl
           (throws_on_inherited_key Sample.Number "constructor: x" eq_refl)).
Defined.

Lemma provenance_of_recognized_lines_witness :
  looks_structured table_text = false
  /\ exists pre remaining,
       preParseWithRegex Sample.Number table_text = Returned (pre, remaining)
       /\ provenance pre = omap line_entry (JS.split "010" table_text)
       /\ Forall
            (fun e =>
               confidence_score e = Some 1
               /\ exists key, keyMap !! key = Some (field e))
            (provenance pre).
Proof.
  exact (conj eq_refl
           (provenance_of_recognized_lines Sample.Number table_text eq_refl
              no_inherited_key_in_table_text)).
Defined.




Lemma line_match_modulo_spaces_witness :
  keyMap !! normalize_key "QBER Total " = Some "security.qber_total"
  /\ exists g1 g2,
       line_match
         ("  " +:+ "QBER Total " +:+ ":" +:+ "  " +:+ "0.026" +:+ " ")
       = Some (g1, g2)
       /\ normalize_key g1 = normalize_key "QBER Total "
       /\ JS.trim g2 = JS.trim "0.026".
Proof.
  split; [reflexivity |].
  apply (line_match_modulo_spaces "  " "QBER Total " "  " "0.026" " ");
    reflexivity || discriminate.
Defined.

Lemma key_value_line_parsed_witness :
  keyMap !! "sifted_bits" = Some "security.sifted_bits"
  /\ exists a b,
       JS.split_ne "." "security.sifted_bits" = (a, [b])
       /\ preParseWithRegex Sample.Number ("sifted_bits" +:+ ": " +:+ "1500000")
          = Returned
              ({| sections :=
                    {[ a := JObj
                              {[ b := coerce Sample.Number (JS.trim "1500000") ]} ]};
                  provenance :=
                    [entry "security.sifted_bits"
                       ("sifted_bits" +:+ ": " +:+ "1500000")] |},
               "").
Proof.
  split; [reflexivity |].
  apply (key_value_line_parsed Sample.Number "sifted_bits"
           "security.sifted_bits" "1500000");
    reflexivity || discriminate.
Defined.

(** ** The result card *)

Lemma failed_calculation_shown_witness :
  error (calculateSecureSKR_deterministic Sample.log2 Sample.toString high_qber)
  = Some ("QBER (0.18) exceeds theoretical security limit for BB84 (0.11). "
          +:+ "Secure key rate is zero.")
  /\ SKRResultCard
       (calculateSecureSKR_deterministic Sample.log2 Sample.toString high_qber)
     = Fail ("QBER (0.18) exceeds theoretical security limit for BB84 (0.11). "
             +:+ "Secure key rate is zero.").
Proof.
  assert (H : error
                (calculateSecureSKR_deterministic Sample.log2 Sample.toString
                   high_qber)
              = Some ("QBER (0.18) exceeds theoretical security limit for "
                      +:+ "BB84 (0.11). Secure key rate is zero."))
    by (vm_compute; reflexivity).
  exact (conj H
           (failed_calculation_shown Sample.log2 Sample.toString high_qber _ H)).
Defined.

Lemma calculated_rate_shown_witness :
  R_secure_bps
    (calculateSecureSKR_deterministic Sample.log2 Sample.toString toshiba)
  = Some 111548.74964036296
  /\ SKRResultCard
       (calculateSecureSKR_deterministic Sample.log2 Sample.toString toshiba)
     = Pass 111548.74964036296.
Proof.
  assert (H : R_secure_bps
                (calculateSecureSKR_deterministic Sample.log2 Sample.toString
                   toshiba)
              = Some 111548.74964036296)
    by (vm_compute; reflexivity).
  exact (conj H
           (calculated_rate_shown Sample.log2 Sample.toString toshiba _ H)).
Defined.

(** At the threshold the rate is clamped to zero, and the card is FAIL with
    the default text although the calculation reports no error. *)
Example zero_rate_fails :
  let result :=
    calculateSecureSKR_deterministic Sample.log2 Sample.toString at_threshold in
  error result = None
  /\ R_secure_bps result = Some 0
  /\ SKRResultCard result
     = Fail "Secure Key Rate is zero or could not be computed.".
Proof. vm_compute. repeat split. Qed.
